(** * TokenSightElastic: the domain layer of [App.js]

    A shallow embedding of the mock services ([mockElasticSearch],
    [mockAIValuation], [mockMintToken]) and of the event handlers
    ([signupOrLogin], [createProperty], [assignToUser], [addComparable]) of
    the prototype, followed by the properties proved about them.

    Conventions.
    - JavaScript numbers are IEEE 754 binary64 values: Rocq's primitive
      [float], whose operations compute exactly what the engine computes.
    - JavaScript strings are sequences of ASCII characters.
    - A field that may be missing from an object is a [field]: [Undefined]
      (the key is absent), [Null], or [Val v].
    - [Math.random()] and [new Date().toISOString()] are inputs of the
      function that calls them.  Where the code renders a draw in radix 36,
      the input is that rendering ([Math.random().toString(36)]).
    - The engine's conversions between numbers and text ([Number(text)],
      a number inside a template literal) are parameters of the functions
      that use them.
    - An event handler returns the list of the effects it issues, in order;
      [run] applies them to the application state. *)

From Stdlib Require Import ZArith Ascii String DecimalString.
From Stdlib Require Import PrimFloat SpecFloat FloatOps Uint63.
From stdpp Require Import list strings gmap.

(** ** JavaScript values and built-ins *)

Module JS.

(** A possibly missing field of an object. *)
Inductive field (A : Type) : Type :=
| Undefined
| Null
| Val (a : A).
Arguments Undefined {A}.
Arguments Null {A}.
Arguments Val {A} a.

(** *** Numbers *)

Definition is_nan (x : float) : bool := negb (PrimFloat.eqb x x).

(** [ToBoolean] on a number: [+0], [-0] and [NaN] are falsy. *)
Definition truthy_number (x : float) : bool :=
  negb (PrimFloat.eqb x 0%float || is_nan x).

(** [x || d] where [x] is a possibly missing number. *)
Definition number_or (x : field float) (d : float) : float :=
  match x with
  | Val v => if truthy_number v then v else d
  | _ => d
  end.

(** An integer of magnitude below 2^53, as a number. *)
Definition of_Z (n : Z) : float :=
  if (n <? 0)%Z then PrimFloat.opp (PrimFloat.of_uint63 (Uint63.of_Z (Z.opp n)))
  else PrimFloat.of_uint63 (Uint63.of_Z n).

(** [Math.round]: the integer nearest to [x], ties towards +infinity.
    A finite [x] is [±m * 2^e]; with [e >= 0] it is an integer already,
    otherwise [floor (x + 1/2)] is computed on integers, where it is
    exact.  A result of zero keeps the sign of [x]. *)
Definition Math_round (x : float) : float :=
  match Prim2SF x with
  | S754_finite s m e =>
      if (0 <=? e)%Z then x
      else
        let k := Z.opp e in
        let sm := if s then Z.neg m else Z.pos m in
        let n := Z.div (2 * sm + 2 ^ k) (2 ^ (k + 1)) in
        if (n =? 0)%Z then (if s then (-0)%float else 0%float)
        else of_Z n
  | _ => x
  end.

(** *** Strings *)

(** [ToBoolean] on a string: only the empty string is falsy. *)
Definition truthy_string (s : string) : bool :=
  match s with
  | EmptyString => false
  | String _ _ => true
  end.

(** [f && k f] for a possibly missing string [f] and a boolean [k]. *)
Definition string_and (f : field string) (k : string -> bool) : bool :=
  match f with
  | Val s => truthy_string s && k s
  | _ => false
  end.

(** WhiteSpace and LineTerminator code points, within ASCII. *)
Definition is_white_space (c : ascii) : bool :=
  let n := nat_of_ascii c in
  (n =? 9)%nat || (n =? 10)%nat || (n =? 11)%nat || (n =? 12)%nat
  || (n =? 13)%nat || (n =? 32)%nat.

Fixpoint trimStart (s : string) : string :=
  match s with
  | EmptyString => EmptyString
  | String c s' => if is_white_space c then trimStart s' else s
  end.

Fixpoint trimEnd (s : string) : string :=
  match s with
  | EmptyString => EmptyString
  | String c s' =>
      match trimEnd s' with
      | EmptyString => if is_white_space c then EmptyString else String c EmptyString
      | t => String c t
      end
  end.

Definition trim (s : string) : string := trimEnd (trimStart s).

Definition lower_char (c : ascii) : ascii :=
  let n := nat_of_ascii c in
  if (65 <=? n)%nat && (n <=? 90)%nat then ascii_of_nat (n + 32) else c.

Definition upper_char (c : ascii) : ascii :=
  let n := nat_of_ascii c in
  if (97 <=? n)%nat && (n <=? 122)%nat then ascii_of_nat (n - 32) else c.

Fixpoint map_chars (f : ascii -> ascii) (s : string) : string :=
  match s with
  | EmptyString => EmptyString
  | String c s' => String (f c) (map_chars f s')
  end.

Definition toLowerCase : string -> string := map_chars lower_char.
Definition toUpperCase : string -> string := map_chars upper_char.

(** [s.startsWith(q)]. *)
Fixpoint startsWith (s q : string) {struct q} : bool :=
  match q, s with
  | EmptyString, _ => true
  | String a q', String b s' => Ascii.eqb a b && startsWith s' q'
  | String _ _, EmptyString => false
  end.

(** [s.includes(q)]: [q] starts at some position of [s]. *)
Fixpoint includes (s q : string) : bool :=
  startsWith s q
  || match s with
     | EmptyString => false
     | String _ s' => includes s' q
     end.

(** [s.slice(b, e)] for [0 <= b <= e]; both ends are clamped to the
    length of [s]. *)
Definition slice (b e : nat) (s : string) : string :=
  String.substring b (e - b) s.

(** *** JSON *)

#[local] Set Warnings "-register-all".

(** A JSON value; numbers are integers of magnitude below 2^53, which
    [JSON.stringify] prints in decimal. *)
Inductive json : Type :=
| JNull
| JBool (b : bool)
| JNum (n : Z)
| JStr (s : string)
| JArr (l : list json)
| JObj (l : list (string * json)).

Definition hex_digit (n : nat) : ascii :=
  if (n <? 10)%nat then ascii_of_nat (48 + n) else ascii_of_nat (87 + n).

Definition double_quote : ascii := ascii_of_nat 34.
Definition backslash : ascii := ascii_of_nat 92.

(** A two-character escape sequence: a backslash and [c]. *)
Definition escaped (c : string) : string := String backslash c.

(** The escape of one character inside a JSON string literal. *)
Definition escape_char (c : ascii) : string :=
  let n := nat_of_ascii c in
  if (n =? 34)%nat then escaped (String double_quote EmptyString)
  else if (n =? 92)%nat then escaped (String backslash EmptyString)
  else if (n =? 8)%nat then escaped "b"
  else if (n =? 12)%nat then escaped "f"
  else if (n =? 10)%nat then escaped "n"
  else if (n =? 13)%nat then escaped "r"
  else if (n =? 9)%nat then escaped "t"
  else if (n <? 32)%nat then
    escaped ("u00" +:+ String (hex_digit (n / 16))
                        (String (hex_digit (n mod 16)) EmptyString))
  else String c EmptyString.

Fixpoint escape (s : string) : string :=
  match s with
  | EmptyString => EmptyString
  | String c s' => escape_char c +:+ escape s'
  end.

Definition quote (s : string) : string :=
  String double_quote (escape s +:+ String double_quote EmptyString).

(** [JSON.stringify] without indentation. *)
Fixpoint stringify (j : json) : string :=
  match j with
  | JNull => "null"
  | JBool true => "true"
  | JBool false => "false"
  | JNum n => NilZero.string_of_int (Z.to_int n)
  | JStr s => quote s
  | JArr l =>
      let fix elements (l : list json) : string :=
        match l with
        | [] => EmptyString
        | [x] => stringify x
        | x :: l' => stringify x +:+ "," +:+ elements l'
        end in
      "[" +:+ elements l +:+ "]"
  | JObj l =>
      let fix members (l : list (string * json)) : string :=
        match l with
        | [] => EmptyString
        | [(k, v)] => quote k +:+ ":" +:+ stringify v
        | (k, v) :: l' => quote k +:+ ":" +:+ stringify v +:+ "," +:+ members l'
        end in
      "{" +:+ members l +:+ "}"
  end.

End JS.

Import JS.

(** ** Data model: the objects of the three persisted collections *)

Module User.
Record t : Type := mk { id : string; name : string; phone : string }.
End User.

Module Comparable.
Record t : Type := mk { id : string; value : field float }.
End Comparable.

Module Property.
Record t : Type := mk {
  id : string;
  title : field string;
  address : field string;
  estimatedValue : field float;
  comparables : field (list Comparable.t);
  documents : list json;
  assignedTo : field string;
  createdAt : string;
  metadata : field (list (string * json))
}.

(** [{...p, assignedTo: userId}] *)
Definition with_assignedTo (p : t) (userId : field string) : t :=
  mk (id p) (title p) (address p) (estimatedValue p) (comparables p)
     (documents p) userId (createdAt p) (metadata p).

(** [{...p, comparables: cs}] *)
Definition with_comparables (p : t) (cs : field (list Comparable.t)) : t :=
  mk (id p) (title p) (address p) (estimatedValue p) cs
     (documents p) (assignedTo p) (createdAt p) (metadata p).
End Property.

Module Token.
Record t : Type := mk {
  id : string;
  owner : User.t;
  propertyId : string;
  mintedAt : string
}.
End Token.

(** ** Mock services *)

(** The literals [0.7], [0.3], [0.9] and [1.1] denote the nearest binary64
    values, in JavaScript as here. *)
#[local] Set Warnings "-inexact-float".

(** The predicate of the [filter] in [mockElasticSearch]. *)
Definition matches (q : string) (p : Property.t) : bool :=
  string_and (Property.title p) (fun t => includes (toLowerCase t) q)
  || string_and (Property.address p) (fun a => includes (toLowerCase a) q)
  || match Property.metadata p with
     | Val m => includes (toLowerCase (stringify (JObj m))) q
     | _ => false
     end.

Definition mockElasticSearch (query : string) (properties : list Property.t)
  : list Property.t :=
  let q := toLowerCase (trim query) in
  if negb (truthy_string q) then properties
  else List.filter (matches q) properties.

Module Valuation.
Record t : Type := mk {
  valuation : float;
  reasoning : string;
  confidence : string
}.
End Valuation.

(** [property.estimatedValue || 100000] *)
Definition valuation_base (property : Property.t) : float :=
  number_or (Property.estimatedValue property) 100000%float.

(** [property.comparables || []]: an array, even an empty one, is truthy. *)
Definition valuation_comps (property : Property.t) : list Comparable.t :=
  match Property.comparables property with
  | Val l => l
  | _ => []
  end.

(** [comps.reduce((s,c)=>s+(c.value||0),0)] *)
Definition comps_sum (comps : list Comparable.t) : float :=
  fold_left (fun s c => PrimFloat.add s (number_or (Comparable.value c) 0%float))
            comps 0%float.

(** [comps.length] as a number. *)
Definition comps_length (comps : list Comparable.t) : float :=
  of_Z (Z.of_nat (length comps)).

Definition valuation_compAvg (comps : list Comparable.t) : float :=
  match comps with
  | [] => 0%float
  | _ :: _ => Math_round (PrimFloat.div (comps_sum comps) (comps_length comps))
  end.

Section Services.

(** The engine's conversion of a number to a string, used by template
    literals. *)
Variable numberToString : float -> string.

Definition mockAIValuation (property : Property.t) : Valuation.t :=
  let base := valuation_base property in
  let comps := valuation_comps property in
  let compAvg := valuation_compAvg comps in
  let valuation := Math_round (base * 0.7 + compAvg * 0.3)%float in
  let reasoning :=
    "First-pass valuation: combined base estimate ("
    +:+ numberToString base
    +:+ ") and comparables average ("
    +:+ numberToString compAvg
    +:+ "). Recommended range: "
    +:+ numberToString (Math_round (valuation * 0.9)%float)
    +:+ " - "
    +:+ numberToString (Math_round (valuation * 1.1)%float)
    +:+ "." in
  Valuation.mk valuation reasoning
    (match comps with [] => "low" | _ :: _ => "medium" end).

End Services.

(** [r36] is [Math.random().toString(36)], [now] is
    [new Date().toISOString()]. *)
Definition mockMintToken (r36 now : string) (owner : User.t)
    (property : Property.t) : Token.t :=
  Token.mk ("TOKEN-" +:+ toUpperCase (slice 2 9 r36))
           owner (Property.id property) now.

(** ** Storage *)

Module STORAGE_KEYS.
Definition USERS : string := "proto_users".
Definition PROPERTIES : string := "proto_properties".
Definition TOKENS : string := "proto_tokens".
End STORAGE_KEYS.

(** What [save] writes under a key.  The collections are kept as values:
    [load] parses the text that [save] serialised. *)
Inductive stored : Type :=
| StoredUsers (data : list User.t)
| StoredProperties (data : list Property.t)
| StoredTokens (data : list Token.t).

(** ** Effects and application state *)

(** The calls by which a handler acts on the world. *)
Inductive effect : Type :=
| Alert_alert (title : string) (message : field string)
| onLogin (u : User.t)
| setUsers (next : list User.t)
| setProperties (next : list Property.t)
| setTokens (next : list Token.t)
| save (key : string) (data : stored)
| setTitle (s : string)
| setAddress (s : string)
| setEstimatedValue (s : string)
| setAssignedTo (s : string)
| throw_TypeError.

(** The state of the [useState] hooks of [App] and of the form of
    [AdminDashboard], the contents of [AsyncStorage], and the alerts shown
    so far (oldest first). *)
Module App.
Record State : Type := mk {
  user : field User.t;
  users : list User.t;
  properties : list Property.t;
  tokens : list Token.t;
  screen : string;
  title : string;
  address : string;
  estimatedValue : string;
  assignedTo : string;
  storage : gmap string stored;
  alerts : list (string * field string)
}.

(** The state of a first launch, before anything is loaded. *)
Definition initial : State :=
  mk Null [] [] [] "login" "" "" "" "" ∅ [].
End App.

(** One effect.  A change of a collection also triggers the [useEffect]
    hook that saves it; [onLogin] is the callback that [App] hands to
    [Login]. *)
Definition run1 (st : App.State) (e : effect) : App.State :=
  match st with
  | App.mk u us ps ts sc ti ad ev at_ sto al =>
      match e with
      | Alert_alert t m =>
          App.mk u us ps ts sc ti ad ev at_ sto (al ++ [(t, m)])
      | onLogin u' => App.mk (Val u') us ps ts "dashboard" ti ad ev at_ sto al
      | setUsers next =>
          App.mk u next ps ts sc ti ad ev at_
            (<[STORAGE_KEYS.USERS := StoredUsers next]> sto) al
      | setProperties next =>
          App.mk u us next ts sc ti ad ev at_
            (<[STORAGE_KEYS.PROPERTIES := StoredProperties next]> sto) al
      | setTokens next =>
          App.mk u us ps next sc ti ad ev at_
            (<[STORAGE_KEYS.TOKENS := StoredTokens next]> sto) al
      | save key data => App.mk u us ps ts sc ti ad ev at_ (<[key := data]> sto) al
      | setTitle s => App.mk u us ps ts sc s ad ev at_ sto al
      | setAddress s => App.mk u us ps ts sc ti s ev at_ sto al
      | setEstimatedValue s => App.mk u us ps ts sc ti ad s at_ sto al
      | setAssignedTo s => App.mk u us ps ts sc ti ad ev s sto al
      | throw_TypeError => st
      end
  end.

Definition run (st : App.State) (trace : list effect) : App.State :=
  fold_left run1 trace st.

(** ** Event handlers *)

(** [Login], the handler of the Continue button.  [users] is the prop of
    the component, [name] and [phone] its text inputs. *)
Definition signupOrLogin (users : list User.t) (name phone : string)
    (r36 : string) : list effect :=
  if negb (truthy_string name) || negb (truthy_string phone)
  then [Alert_alert "Enter name and phone" Undefined]
  else
    match List.find (fun u => String.eqb (User.phone u) phone) users with
    | None =>
        let newUser := User.mk ("USER-" +:+ slice 2 8 r36) name phone in
        let next := users ++ [newUser] in
        [setUsers next; save STORAGE_KEYS.USERS (StoredUsers next); onLogin newUser]
    | Some found =>
        if negb (String.eqb (User.name found) name)
        then [Alert_alert "Name does not match phone" Undefined]
        else [onLogin found]
    end.

Section Admin.

(** The engine's conversion of the text of an input to a number. *)
Variable Number : string -> float.

(** [AdminDashboard], the handler of the Create Property button. *)
Definition createProperty (properties : list Property.t)
    (title address estimatedValue assignedTo : string)
    (r36 now : string) : list effect :=
  if negb (truthy_string title) then [Alert_alert "Enter title" Undefined]
  else
    let prop :=
      Property.mk
        ("PROP-" +:+ slice 2 8 r36)
        (Val title) (Val address)
        (Val (number_or (Val (Number estimatedValue)) 0%float))
        (Val []) []
        (if truthy_string assignedTo then Val assignedTo else Null)
        now
        (Val [("source", JStr "admin-upload")]) in
    [setProperties (prop :: properties);
     setTitle ""; setAddress ""; setEstimatedValue ""; setAssignedTo ""].

End Admin.

(** [AdminDashboard], the handler of the Assign button. *)
Definition assignToUser (properties : list Property.t) (propId : string)
    (userId : field string) : list effect :=
  [setProperties
     (List.map (fun p => if String.eqb (Property.id p) propId
                         then Property.with_assignedTo p userId
                         else p)
               properties)].

(** The [map] of [addComparable].  Every property that matches draws its
    own comparable id: [ids k] is [Math.random().toString(36)] at the
    [k]-th draw made by the callback, and [k] counts the draws made so far.
    Spreading a missing [comparables] throws, which is [None]. *)
Fixpoint addComparable_map (propId : string) (value : float)
    (ids : nat -> string) (k : nat) (properties : list Property.t)
  : option (list Property.t) :=
  match properties with
  | [] => Some []
  | p :: rest =>
      if String.eqb (Property.id p) propId then
        match Property.comparables p with
        | Val cs =>
            let c := Comparable.mk ("C-" +:+ slice 2 6 (ids k)) (Val value) in
            match addComparable_map propId value ids (S k) rest with
            | Some rest' =>
                Some (Property.with_comparables p (Val (cs ++ [c])) :: rest')
            | None => None
            end
        | _ => None
        end
      else
        match addComparable_map propId value ids k rest with
        | Some rest' => Some (p :: rest')
        | None => None
        end
  end.

(** [AdminDashboard], the handler of the Add Comparable button.  [r] is the
    [Math.random()] that the value is made of. *)
Definition addComparable (properties : list Property.t) (propId : string)
    (r : float) (ids : nat -> string) : list effect :=
  let value := Math_round (r * 100000 + 50000)%float in
  match addComparable_map propId value ids 0 properties with
  | Some next => [setProperties next]
  | None => [throw_TypeError]
  end.

(** [UserDashboard], the handler of the Accept & Mint button. *)
Definition acceptAndMint (user : User.t) (tokens : list Token.t)
    (prop : Property.t) (r36 now : string) : list effect :=
  let token := mockMintToken r36 now user prop in
  let next := token :: tokens in
  [setTokens next;
   save STORAGE_KEYS.TOKENS (StoredTokens next);
   Alert_alert "Minted"
     (Val ("Token " +:+ Token.id token +:+ " minted and assigned to you."))].

(** ** Vocabulary of the specification *)

(** [q] occurs in [s]. *)
Definition is_substring (q s : string) : Prop :=
  ∃ pre post, s = pre +:+ q +:+ post.

(** Every character of [s] is white space; the empty string qualifies. *)
Fixpoint whitespace_only (s : string) : Prop :=
  match s with
  | EmptyString => True
  | String c s' => is_white_space c = true ∧ whitespace_only s'
  end.

(** [q] occurs, case-insensitively, in a text field that is present. *)
Definition text_contains (q : string) (f : field string) : Prop :=
  ∃ s, f = Val s ∧ is_substring q (toLowerCase s).

(** [q] occurs, case-insensitively, in the stringified metadata. *)
Definition metadata_contains (q : string)
    (m : field (list (string * json))) : Prop :=
  ∃ o, m = Val o ∧ is_substring q (toLowerCase (stringify (JObj o))).

(** The inclusion rule of the search contract. *)
Definition search_match (q : string) (p : Property.t) : Prop :=
  text_contains q (Property.title p)
  ∨ text_contains q (Property.address p)
  ∨ metadata_contains q (Property.metadata p).

(** The estimate is missing, or is a number that [||] takes for missing:
    a zero of either sign, or NaN. *)
Definition absent_or_zero (f : field float) : Prop :=
  f = Undefined ∨ f = Null
  ∨ f = Val 0%float ∨ f = Val (-0)%float ∨ f = Val nan.

(** The property has no comparable: the sequence is missing or empty. *)
Definition no_comparables (p : Property.t) : Prop :=
  Property.comparables p = Undefined
  ∨ Property.comparables p = Null
  ∨ Property.comparables p = Val [].

(** What a comparable adds to the sum of the average: its value, and 0
    when it has none. *)
Definition contribution (c : Comparable.t) : float :=
  match Comparable.value c with
  | Val x => if PrimFloat.eqb x 0%float then 0%float
             else if PrimFloat.eqb x x then x else 0%float
  | _ => 0%float
  end.

(** The arithmetic mean of a sequence of numbers, summed from the left. *)
Definition arithmetic_mean (values : list float) : float :=
  (fold_left PrimFloat.add values 0 / of_Z (Z.of_nat (length values)))%float.

(** The comparables average of the valuation contract. *)
Definition comparables_average (comps : list Comparable.t) : float :=
  match comps with
  | [] => 0%float
  | _ :: _ => Math_round (arithmetic_mean (List.map contribution comps))
  end.

(** The number of properties of id [propId] before position [i]. *)
Definition matches_before (propId : string) (i : nat)
    (properties : list Property.t) : nat :=
  length (List.filter (λ q, String.eqb (Property.id q) propId)
                      (take i properties)).

(** The comparable that [addComparable] makes of the draw [r] for the
    value and of its [k]-th draw for the id. *)
Definition generated_comparable (r : float) (ids : nat → string) (k : nat)
  : Comparable.t :=
  Comparable.mk ("C-" +:+ slice 2 6 (ids k))
                (Val (Math_round (r * 100000 + 50000)%float)).

(** Every character of [s] passes the test [f]. *)
Fixpoint all_chars (f : ascii → bool) (s : string) : bool :=
  match s with
  | EmptyString => true
  | String c s' => f c && all_chars f s'
  end.

(** A digit of radix 36, as [toString(36)] writes it: 0-9 or a-z. *)
Definition is_digit36 (c : ascii) : bool :=
  let n := nat_of_ascii c in
  ((48 <=? n)%nat && (n <=? 57)%nat) || ((97 <=? n)%nat && (n <=? 122)%nat).

(** An upper-case alphanumeric character: 0-9 or A-Z. *)
Definition is_upper_alnum (c : ascii) : bool :=
  let n := nat_of_ascii c in
  ((48 <=? n)%nat && (n <=? 57)%nat) || ((65 <=? n)%nat && (n <=? 90)%nat).

(** What [Math.random().toString(36)] can be: a draw is a number of
    [0, 1), so its rendering is 0 alone, or 0 and a point followed by
    digits of radix 36. *)
Definition is_radix36_fraction (r36 : string) : bool :=
  match r36 with
  | String z EmptyString => (nat_of_ascii z =? 48)%nat
  | String z (String pt digits) =>
      (nat_of_ascii z =? 48)%nat && (nat_of_ascii pt =? 46)%nat
      && truthy_string digits && all_chars is_digit36 digits
  | _ => false
  end.

(** One invocation of [mockMintToken]: the draw and the clock it reads,
    and its arguments. *)
Module MintCall.
Record t : Type := mk {
  r36 : string;
  now : string;
  owner : User.t;
  property : Property.t
}.
End MintCall.

Definition mint (c : MintCall.t) : Token.t :=
  mockMintToken (MintCall.r36 c) (MintCall.now c) (MintCall.owner c)
                (MintCall.property c).

(** ** Stand-ins for the engine's conversions, used in the examples *)

(** The decimal text of a number; right on the integers below 10^21,
    which is all that the examples print. *)
Definition integerToString (x : float) : string :=
  match Prim2SF x with
  | S754_zero _ => "0"
  | S754_infinity false => "Infinity"
  | S754_infinity true => "-Infinity"
  | S754_nan => "NaN"
  | S754_finite s m e =>
      let n := if (0 <=? e)%Z then (Z.pos m * 2 ^ e)%Z
               else (Z.pos m / 2 ^ (- e))%Z in
      NilZero.string_of_int (Z.to_int (if s then (- n)%Z else n))
  end.

(** The number that a text of decimal digits denotes; the empty text
    denotes 0, and any other text is taken for NaN. *)
Fixpoint digits_value (acc : Z) (s : string) : option Z :=
  match s with
  | EmptyString => Some acc
  | String c s' =>
      let n := nat_of_ascii c in
      if (48 <=? n)%nat && (n <=? 57)%nat
      then digits_value (10 * acc + Z.of_nat (n - 48))%Z s'
      else None
  end.

Definition digitsToNumber (s : string) : float :=
  match digits_value 0 s with
  | Some n => of_Z n
  | None => nan
  end.

(** [s] with every ' replaced by a double quote. *)
Definition with_double_quotes (s : string) : string :=
  map_chars (λ c, if (nat_of_ascii c =? 39)%nat then double_quote else c) s.

(** ** Sample data of the examples *)

(** A property as [createProperty] makes it, with the given estimate and
    comparables. *)
Definition listing (estimate : field float) (comps : field (list Comparable.t))
  : Property.t :=
  Property.mk "PROP-k3x9qa" (Val "Hill House") (Val "4 Hill Road") estimate
    comps [] Null "2024-05-01T10:00:00.000Z"
    (Val [("source", JStr "admin-upload")]).

(** The one registered user of the examples. *)
Definition bob : User.t := User.mk "USER-7hq2ab" "bob" "0712345678".

(** Two mints of one run, by the same user for the same property. *)
Definition first_mint : MintCall.t :=
  MintCall.mk "0.4fzyo82mvyr" "2024-06-11T09:00:00.000Z" bob
              (listing (Val 100000%float) (Val [])).
Definition second_mint : MintCall.t :=
  MintCall.mk "0.4fzyo82k1d9" "2024-06-11T09:05:00.000Z" bob
              (listing (Val 100000%float) (Val [])).

(** ** The rest of the application *)

(** *** [App]: the role check, what is shown, logging out *)

(** [user && user.name && user.name.toLowerCase() === 'admin'] *)
Definition isAdmin (user : field User.t) : bool :=
  match user with
  | Val u =>
      truthy_string (User.name u)
      && String.eqb (toLowerCase (User.name u)) "admin"
  | _ => false
  end.

(** The component that [App] renders below its header. *)
Module Component.
Inductive t : Type := Login | AdminDashboard | UserDashboard.
End Component.

(** [if(!user) return <Login .../>], then
    [isAdmin ? <AdminDashboard .../> : <UserDashboard .../>]. *)
Definition App_render (st : App.State) : Component.t :=
  match App.user st with
  | Val _ =>
      if isAdmin (App.user st) then Component.AdminDashboard
      else Component.UserDashboard
  | _ => Component.Login
  end.

(** The [onLogout] of the header: [setUser(null); setScreen('login')].
    The dashboard is unmounted with it, so the form of [AdminDashboard]
    starts empty at the next mount. *)
Definition onLogout (st : App.State) : App.State :=
  App.mk Null (App.users st) (App.properties st) (App.tokens st) "login"
         "" "" "" "" (App.storage st) (App.alerts st).

(** *** [AdminDashboard]: the target of the Assign button *)

(** [users[0]?.id || null] *)
Definition first_user_id (users : list User.t) : field string :=
  match users with
  | u :: _ => if truthy_string (User.id u) then Val (User.id u) else Null
  | [] => Null
  end.

(** The callback of the [map] in [assignToUser]. *)
Definition assign_one (propId : string) (userId : field string)
    (p : Property.t) : Property.t :=
  if String.eqb (Property.id p) propId
  then Property.with_assignedTo p userId else p.

(** Whether [user] is the one that [userId] names. *)
Definition names_user (userId : field string) (user : User.t) : bool :=
  match userId with
  | Val uid => String.eqb uid (User.id user)
  | _ => false
  end.

(** What [addComparable] makes of a property: the property itself, or the
    property with one more comparable at the end. *)
Definition grown (p p' : Property.t) : Prop :=
  p' = p
  ∨ ∃ cs c, Property.comparables p = Val cs
            ∧ p' = Property.with_comparables p (Val (cs ++ [c])).

(** *** [UserDashboard]: the derived lists and the valuation request *)

(** [p.assignedTo === user.id] *)
Definition assigned_to (user : User.t) (p : Property.t) : bool :=
  match Property.assignedTo p with
  | Val a => String.eqb a (User.id user)
  | _ => false
  end.

(** [properties.filter(p=> p.assignedTo === user.id)], the list under
    Your Assigned Properties. *)
Definition assigned (user : User.t) (properties : list Property.t)
  : list Property.t :=
  List.filter (assigned_to user) properties.

(** [tokens.filter(t=> t.owner && t.owner.phone === user.phone)], the list
    under Your Tokens. *)
Definition yourTokens (user : User.t) (tokens : list Token.t) : list Token.t :=
  List.filter (λ t, String.eqb (User.phone (Token.owner t)) (User.phone user))
              tokens.

Definition line_feed : string := String (ascii_of_nat 10) EmptyString.

Section Dashboards.

Variable numberToString : float → string.

(** The handler of the Request AI Valuation button. *)
Definition requestValuation (prop : Property.t) : list effect :=
  let res := mockAIValuation numberToString prop in
  [Alert_alert "AI Valuation"
     (Val ("Value: " +:+ numberToString (Valuation.valuation res)
           +:+ line_feed +:+ "Confidence: " +:+ Valuation.confidence res
           +:+ line_feed +:+ "Reasoning: " +:+ Valuation.reasoning res))].

End Dashboards.

(** *** Helpers: [load] and [save] over the text that is stored *)

Module Helpers.
Section Engine.

(** [JSON.parse]; [None] when it throws. *)
Variable JSON_parse : string → option json.

(** [load(key, fallback)] on the contents of [AsyncStorage]: [getItem]
    gives null for a key that was never set, an empty text is falsy, and a
    text that does not parse is caught. *)
Definition load (store : gmap string string) (key : string) (fallback : json)
  : json :=
  match store !! key with
  | Some raw =>
      if truthy_string raw then
        match JSON_parse raw with
        | Some value => value
        | None => fallback
        end
      else fallback
  | None => fallback
  end.

(** [save(key, data)]: [setItem(key, JSON.stringify(data))]. *)
Definition save (store : gmap string string) (key : string) (data : json)
  : gmap string string :=
  <[key := stringify data]> store.

End Engine.
End Helpers.

(** *** The application as a machine driven by the user *)

(** What the user can do.  A button of a property card is named by the
    position of the property in the collection; the cards of
    [UserDashboard] show properties of the collection. *)
Inductive action : Type :=
| PressContinue (name phone r36 : string)
| PressLogout
| TypeTitle (s : string)
| TypeAddress (s : string)
| TypeEstimatedValue (s : string)
| TypeAssignedTo (s : string)
| PressCreateProperty (r36 now : string)
| PressAddComparable (i : nat) (r : float) (ids : nat → string)
| PressAssign (i : nat)
| PressRequestValuation (i : nat)
| PressAcceptAndMint (i : nat) (r36 now : string).

Section Machine.

Variables (Number : string → float) (numberToString : float → string).

(** The effects of an action on the [Login] screen. *)
Definition Login_handle (st : App.State) (a : action) : list effect :=
  match a with
  | PressContinue name phone r36 =>
      signupOrLogin (App.users st) name phone r36
  | _ => []
  end.

(** The effects of an action on [AdminDashboard]. *)
Definition AdminDashboard_handle (st : App.State) (a : action) : list effect :=
  match a with
  | TypeTitle s => [setTitle s]
  | TypeAddress s => [setAddress s]
  | TypeEstimatedValue s => [setEstimatedValue s]
  | TypeAssignedTo s => [setAssignedTo s]
  | PressCreateProperty r36 now =>
      createProperty Number (App.properties st) (App.title st)
        (App.address st) (App.estimatedValue st) (App.assignedTo st) r36 now
  | PressAddComparable i r ids =>
      match App.properties st !! i with
      | Some p => addComparable (App.properties st) (Property.id p) r ids
      | None => []
      end
  | PressAssign i =>
      match App.properties st !! i with
      | Some p =>
          assignToUser (App.properties st) (Property.id p)
            (first_user_id (App.users st))
      | None => []
      end
  | _ => []
  end.

(** The effects of an action on [UserDashboard]. *)
Definition UserDashboard_handle (user : User.t) (st : App.State) (a : action)
  : list effect :=
  match a with
  | PressRequestValuation i =>
      match App.properties st !! i with
      | Some p => requestValuation numberToString p
      | None => []
      end
  | PressAcceptAndMint i r36 now =>
      match App.properties st !! i with
      | Some p => acceptAndMint user (App.tokens st) p r36 now
      | None => []
      end
  | _ => []
  end.

(** One action.  A control acts only while its component is shown; the
    Logout button is in the header of both dashboards. *)
Definition step (st : App.State) (a : action) : App.State :=
  match App.user st with
  | Val user =>
      match a with
      | PressLogout => onLogout st
      | _ =>
          if isAdmin (App.user st) then run st (AdminDashboard_handle st a)
          else run st (UserDashboard_handle user st a)
      end
  | _ => run st (Login_handle st a)
  end.

(** The state after a sequence of actions from the first launch. *)
Definition session (actions : list action) : App.State :=
  fold_left step actions App.initial.

End Machine.

(** *** Invariants of the machine *)

(** Phones identify users, and no user lacks a name or a phone. *)
Definition users_ok (users : list User.t) : Prop :=
  NoDup (List.map User.phone users)
  ∧ Forall (λ u, User.name u ≠ "" ∧ User.phone u ≠ "") users.

(** A property as the application makes and keeps it. *)
Definition property_ok (p : Property.t) : Prop :=
  (∃ t, Property.title p = Val t ∧ t ≠ "")
  ∧ (∃ a, Property.address p = Val a)
  ∧ (∃ x, Property.estimatedValue p = Val x ∧ is_nan x = false)
  ∧ (∃ cs, Property.comparables p = Val cs
           ∧ Forall (λ c, ∃ v, Comparable.value c = Val v) cs)
  ∧ Property.assignedTo p ≠ Undefined
  ∧ Property.metadata p = Val [("source", JStr "admin-upload")].

(** A token of a registered user who is no administrator, for a property
    of the collection. *)
Definition token_ok (users : list User.t) (properties : list Property.t)
    (t : Token.t) : Prop :=
  Token.owner t ∈ users
  ∧ isAdmin (Val (Token.owner t)) = false
  ∧ Token.propertyId t ∈ List.map Property.id properties.

(** What is stored under a key is the collection in memory. *)
Definition in_sync (st : App.State) : Prop :=
  (∀ data, App.storage st !! STORAGE_KEYS.USERS = Some data →
           data = StoredUsers (App.users st))
  ∧ (∀ data, App.storage st !! STORAGE_KEYS.PROPERTIES = Some data →
             data = StoredProperties (App.properties st))
  ∧ (∀ data, App.storage st !! STORAGE_KEYS.TOKENS = Some data →
             data = StoredTokens (App.tokens st))
  ∧ (∀ key, key ≠ STORAGE_KEYS.USERS → key ≠ STORAGE_KEYS.PROPERTIES →
            key ≠ STORAGE_KEYS.TOKENS → App.storage st !! key = None).

(** The session is that of nobody or of a registered user. *)
Definition session_ok (st : App.State) : Prop :=
  App.user st = Null ∨ ∃ u, App.user st = Val u ∧ u ∈ App.users st.

(** All of the above, and the fact that properties need an administrator:
    there is none unless somebody is registered under that name. *)
Definition state_ok (st : App.State) : Prop :=
  users_ok (App.users st)
  ∧ session_ok st
  ∧ Forall property_ok (App.properties st)
  ∧ Forall (token_ok (App.users st) (App.properties st)) (App.tokens st)
  ∧ in_sync st
  ∧ (App.properties st ≠ [] → ∃ u, u ∈ App.users st ∧ isAdmin (Val u) = true).

(** A reading of text that knows the three literals; it stands in for
    [JSON.parse] in the examples. *)
Definition parse_literal (text : string) : option json :=
  if String.eqb text "null" then Some JNull
  else if String.eqb text "true" then Some (JBool true)
  else if String.eqb text "false" then Some (JBool false)
  else None.

(** ** The valuation contract, in its own words *)

(** [y] is the integer nearest to [x], the greater one when two are as
    near.  A finite [x] is [±m * 2^e]: with [e >= 0] it is an integer; with
    [e < 0] the integer [n] is nearest when [2n - 1 <= 2x < 2n + 1], which
    is compared after scaling by [2^-e].  The integer 0 is written with
    the sign of [x]; a zero, an infinity and NaN are left as they are. *)
Definition is_nearest_integer (x y : float) : Prop :=
  match Prim2SF x with
  | S754_finite s m e =>
      if (0 <=? e)%Z then y = x
      else
        ∃ n : Z,
          ((2 * n - 1) * 2 ^ (- e) ≤ 2 * (if s then Z.neg m else Z.pos m)
           ∧ 2 * (if s then Z.neg m else Z.pos m) < (2 * n + 1) * 2 ^ (- e))%Z
          ∧ y = (if (n =? 0)%Z then (if s then (-0)%float else 0%float)
                 else of_Z n)
  | _ => y = x
  end.

(** The base of a valuation: the estimate, and 100000 when the estimate
    is missing, a zero or NaN. *)
Definition base_of (estimate : field float) : float :=
  match estimate with
  | Val x => if PrimFloat.eqb x 0%float then 100000%float
             else if PrimFloat.eqb x x then x else 100000%float
  | _ => 100000%float
  end.

(** ** More vocabulary *)

(** A character of the ASCII range proper. *)
Definition is_ascii (c : ascii) : bool := (nat_of_ascii c <? 128)%nat.

(** A third mint of the run of [first_mint], with other digits. *)
Definition third_mint : MintCall.t :=
  MintCall.mk "0.k81zq0p2mvx" "2024-06-11T09:10:00.000Z" bob
              (listing (Val 100000%float) (Val [])).

Section Effects.

Variables (Number : string → float) (numberToString : float → string).


End Effects.


(** * Properties *)

(** ** The built-ins at work *)

(** Ties go up, a zero keeps its sign, and what the engine computes in
    binary64 is what is rounded: 45 * 0.7 is just below 31.5. *)
Example Math_round_values :
  Math_round 2.5 = 3%float
  ∧ Math_round (-2.5) = (-2)%float
  ∧ Math_round (-0.2) = (-0)%float
  ∧ Math_round 0.49999999999999994 = 0%float
  ∧ Math_round (45 * 0.7) = 31%float
  ∧ Math_round 4503599627370497 = 4503599627370497%float.
Proof. by vm_compute. Qed.

Example string_values :
  trim "  12 Main St  " = "12 Main St"
  ∧ toLowerCase "Hill House" = "hill house"
  ∧ includes "hill house" "l h" = true
  ∧ includes "hill house" "lh" = false
  ∧ slice 2 9 "0.4fzyo82mvyr" = "4fzyo82"
  ∧ slice 2 9 "0.i" = "i"
  ∧ slice 2 9 "0" = "".
Proof. by vm_compute. Qed.

(** The text, written with ' for the double quote. *)
Example stringify_value :
  stringify (JObj [("source", JStr "admin-upload");
                   ("floors", JNum 2);
                   ("tags", JArr [JStr "new"; JNull; JBool true])])
  = with_double_quotes
      "{'source':'admin-upload','floors':2,'tags':['new',null,true]}".
Proof. by vm_compute. Qed.

(** ** Strings *)

Section StringFacts.

Implicit Types s q : string.

Lemma startsWith_spec s q :
  startsWith s q = true ↔ ∃ post, s = q +:+ post.
Proof.
  revert s. induction q as [|a q IH]; intros s; simpl.
  - split; [intros _; by exists s | done].
  - destruct s as [|b s].
    + split; [done | intros [post Hpost]; discriminate].
    + rewrite andb_true_iff, IH. split.
      * intros [Hab [post ->]]. apply Ascii.eqb_eq in Hab as ->. by exists post.
      * intros [post [= -> ->]]. split; [apply Ascii.eqb_refl | by exists post].
Qed.

Lemma includes_spec s q : includes s q = true ↔ is_substring q s.
Proof.
  unfold is_substring. induction s as [|c s IH].
  - cbn [includes]. rewrite orb_false_r, startsWith_spec. split.
    + intros [post Hpost]. by exists EmptyString, post.
    + intros [[|c pre] [post Hpost]]; [by exists post | discriminate].
  - cbn [includes]. rewrite orb_true_iff, startsWith_spec, IH. split.
    + intros [[post Hpost] | (pre & post & ->)].
      * by exists EmptyString, post.
      * by exists (String c pre), post.
    + intros [[|c' pre] [post Hpost]].
      * left. by exists post.
      * right. injection Hpost as -> ->. by exists pre, post.
Qed.

Lemma is_substring_empty q : is_substring q EmptyString → q = EmptyString.
Proof.
  intros [[|c pre] [post Hpost]]; [| discriminate].
  destruct q; [done | discriminate].
Qed.

Lemma truthy_string_false s : truthy_string s = false ↔ s = EmptyString.
Proof. by destruct s. Qed.

Lemma toLowerCase_empty s : toLowerCase s = EmptyString ↔ s = EmptyString.
Proof. by destruct s. Qed.

Lemma trimEnd_empty s : trimEnd s = EmptyString ↔ whitespace_only s.
Proof.
  induction s as [|c s IH]; simpl; [done |].
  destruct (trimEnd s) eqn:Hs.
  - destruct (is_white_space c); split; try done.
    + intros _. split; [done | by apply IH].
    + by intros [? _].
  - split; [done |]. intros [_ Hw]. by apply IH in Hw.
Qed.

Lemma whitespace_only_trimStart s :
  whitespace_only (trimStart s) ↔ whitespace_only s.
Proof.
  induction s as [|c s IH]; simpl; [done |].
  destruct (is_white_space c) eqn:Hc; simpl; rewrite ?Hc; [| done].
  rewrite IH. split; [by split | by intros [_ ?]].
Qed.

(** [trim] leaves nothing exactly of the strings made of white space. *)
Lemma trim_empty s : trim s = EmptyString ↔ whitespace_only s.
Proof. unfold trim. by rewrite trimEnd_empty, whitespace_only_trimStart. Qed.

Lemma normalized_query_empty query :
  truthy_string (toLowerCase (trim query)) = false ↔ whitespace_only query.
Proof. by rewrite truthy_string_false, toLowerCase_empty, trim_empty. Qed.

End StringFacts.

(** ** Search *)

Section Search.

Implicit Types (q : string) (p : Property.t).

Lemma string_and_includes q (f : field string) :
  q ≠ EmptyString →
  string_and f (λ t, includes (toLowerCase t) q) = true ↔ text_contains q f.
Proof.
  intros Hq. unfold text_contains. destruct f as [| |s]; simpl.
  - split; [done | by intros (s & ? & _)].
  - split; [done | by intros (s & ? & _)].
  - rewrite andb_true_iff, includes_spec. split.
    + intros [_ Hs]. by exists s.
    + intros (s' & [= <-] & Hs). split; [| done].
      destruct s; [| done]. by apply is_substring_empty in Hs.
Qed.

Lemma matches_spec q p :
  q ≠ EmptyString → matches q p = true ↔ search_match q p.
Proof.
  intros Hq. unfold matches, search_match.
  rewrite !orb_true_iff, !string_and_includes by done.
  assert ((match Property.metadata p with
           | Val m => includes (toLowerCase (stringify (JObj m))) q
           | _ => false
           end) = true ↔ metadata_contains q (Property.metadata p)) as ->.
  { unfold metadata_contains. destruct (Property.metadata p) as [| |m].
    - split; [done | by intros (o & ? & _)].
    - split; [done | by intros (o & ? & _)].
    - rewrite includes_spec. split; [intros ?; by exists m |].
      by intros (o & [= <-] & ?). }
  tauto.
Qed.

Lemma filter_sublist {A} (f : A → bool) (l : list A) :
  List.filter f l `sublist_of` l.
Proof.
  induction l as [|x l IH]; simpl; [constructor |].
  destruct (f x); by constructor.
Qed.

End Search.

Example search_values :
  let hill := listing (Val 100000%float) (Val []) in
  let lake :=
    Property.mk "PROP-b7t2wd" (Val "Lake Lodge") (Val "9 Shore Lane")
      (Val 85000%float) (Val []) [] Null "2024-06-11T08:30:00.000Z" Undefined in
  mockElasticSearch "   " [hill; lake] = [hill; lake]
  ∧ mockElasticSearch " HILL " [hill; lake] = [hill]
  ∧ mockElasticSearch "l" [hill; lake] = [hill; lake]
  ∧ mockElasticSearch "Admin-Upload" [hill; lake] = [hill]
  ∧ mockElasticSearch "shore" [hill; lake] = [lake]
  ∧ mockElasticSearch "castle" [hill; lake] = [].
Proof. by vm_compute. Qed.

(** C3, as stated, fails for a query with white space at its ends: the
    query is trimmed before it is matched, not only lower-cased.  The
    lower-cased query 'house ' occurs in no field of the listing, yet the
    search returns the listing, because 'house' occurs in its title. *)
Lemma search_trims_the_query :
  let hill := listing (Val 100000%float) (Val []) in
  ¬ whitespace_only "House "
  ∧ ¬ search_match (toLowerCase "House ") hill
  ∧ mockElasticSearch "House " [hill] = [hill].
Proof.
  cbv zeta. split; [by intros [? _] |]. split; [| by vm_compute].
  intros H. apply matches_spec in H; [| done]. by vm_compute in H.
Qed.

(** C3, amended.  A query that is empty or made of white space only
    returns the input sequence as it is.  For any other query, with [q] the
    query trimmed of the white space at its ends and lower-cased, a
    property is in the result if and only if it is in the input and [q]
    occurs in its lower-cased title, or in its lower-cased address, or in
    the lower-cased JSON text of its metadata; and the result keeps the
    relative order of the input. *)
Theorem search_contract (query : string) (properties : list Property.t) :
  (whitespace_only query → mockElasticSearch query properties = properties)
  ∧ (¬ whitespace_only query →
     (∀ p, p ∈ mockElasticSearch query properties
            ↔ p ∈ properties ∧ search_match (toLowerCase (trim query)) p)
     ∧ mockElasticSearch query properties `sublist_of` properties).
Proof.
  unfold mockElasticSearch. split.
  - intros Hw. apply normalized_query_empty in Hw. by rewrite Hw.
  - intros Hw.
    destruct (truthy_string (toLowerCase (trim query))) eqn:Hq.
    + assert (toLowerCase (trim query) ≠ EmptyString) as Hne.
      { intros He. by rewrite He in Hq. }
      simpl. split; [| apply filter_sublist].
      intros p. rewrite !list_elem_of_In, filter_In.
      by rewrite matches_spec.
    + by apply normalized_query_empty in Hq.
Qed.

(** ** Valuation *)

(** Two numbers that evaluate to different binary64 values differ. *)
Ltac float_discriminate H :=
  apply (f_equal Prim2SF) in H; vm_compute in H; discriminate H.

Section ValuationFacts.

Implicit Types (p : Property.t) (c : Comparable.t).

Lemma number_or_absent_or_zero (f : field float) (d : float) :
  absent_or_zero f → number_or f d = d.
Proof. by intros [-> | [-> | [-> | [-> | ->]]]]. Qed.

Lemma no_comparables_comps p : no_comparables p → valuation_comps p = [].
Proof. unfold valuation_comps. by intros [-> | [-> | ->]]. Qed.

(** The value that [c.value || 0] takes is the contribution of [c]. *)
Lemma number_or_contribution c :
  number_or (Comparable.value c) 0%float = contribution c.
Proof.
  unfold contribution, number_or, truthy_number, is_nan.
  destruct (Comparable.value c) as [| |x]; try done.
  destruct (PrimFloat.eqb x 0); simpl; [done |].
  by destruct (PrimFloat.eqb x x).
Qed.

Lemma comps_sum_contributions (comps : list Comparable.t) (s : float) :
  fold_left (λ s c, PrimFloat.add s (number_or (Comparable.value c) 0%float))
            comps s
  = fold_left PrimFloat.add (List.map contribution comps) s.
Proof.
  revert s. induction comps as [|c comps IH]; intros s; simpl; [done |].
  by rewrite IH, number_or_contribution.
Qed.

(** The code's average is the rounded arithmetic mean of the
    contributions of all comparables. *)
Lemma valuation_compAvg_mean (comps : list Comparable.t) :
  valuation_compAvg comps = comparables_average comps.
Proof.
  destruct comps as [|c comps]; [done |].
  unfold valuation_compAvg, comparables_average, arithmetic_mean,
    comps_sum, comps_length.
  by rewrite comps_sum_contributions, length_map.
Qed.

Lemma contribution_absent_or_zero c :
  absent_or_zero (Comparable.value c) → contribution c = 0%float.
Proof.
  unfold contribution. by intros [-> | [-> | [-> | [-> | ->]]]].
Qed.

(** An estimate that is present and truthy is the base. *)
Lemma valuation_base_present p (x : float) :
  Property.estimatedValue p = Val x → truthy_number x = true →
  valuation_base p = x.
Proof. unfold valuation_base, number_or. by intros -> ->. Qed.

End ValuationFacts.

Example valuation_values :
  mockAIValuation integerToString (listing (Val 100000%float) (Val []))
  = Valuation.mk 70000
      "First-pass valuation: combined base estimate (100000) and comparables average (0). Recommended range: 63000 - 77000."
      "low"
  ∧ mockAIValuation integerToString
      (listing (Val 100000%float)
         (Val [Comparable.mk "C-9f3k" (Val 200000%float)]))
    = Valuation.mk 130000
        "First-pass valuation: combined base estimate (100000) and comparables average (200000). Recommended range: 117000 - 143000."
        "medium"
  ∧ Valuation.valuation
      (mockAIValuation integerToString
         (listing (Val 120000%float)
            (Val [Comparable.mk "C-9f3k" (Val 90001%float);
                  Comparable.mk "C-2bq7" (Val 110000%float)])))
    = 114000%float.
Proof. by vm_compute. Qed.

(** C1, as stated, fails: a property whose [estimatedValue] is present and
    explicitly 0, without comparables, is valued at 70000, from the base
    100000, and not at 0. *)
Lemma valuation_of_zero_estimate_is_not_zero :
  let r := mockAIValuation integerToString (listing (Val 0%float) (Val [])) in
  valuation_base (listing (Val 0%float) (Val [])) = 100000%float
  ∧ Valuation.valuation r = 70000%float
  ∧ Valuation.valuation r ≠ 0%float.
Proof.
  cbv zeta. split; [done |]. split; [by vm_compute |].
  intros H. vm_compute in H. float_discriminate H.
Qed.

(** C1, amended.  The base is the default 100000 whenever [estimatedValue]
    is absent, null, a zero or NaN: an explicit 0 counts as missing.  For
    such a property without comparables the valuation is
    round(0.7 * 100000) = 70000. *)
Theorem valuation_default_base (numberToString : float → string)
    (p : Property.t) :
  absent_or_zero (Property.estimatedValue p) →
  valuation_base p = 100000%float
  ∧ (no_comparables p →
     Valuation.valuation (mockAIValuation numberToString p) = 70000%float).
Proof.
  intros Hev. unfold mockAIValuation, valuation_base.
  rewrite (number_or_absent_or_zero _ _ Hev). split; [done |].
  intros Hc. rewrite (no_comparables_comps _ Hc). by vm_compute.
Qed.

Lemma valuation_default_base_witness :
  absent_or_zero (Property.estimatedValue (listing (Val 0%float) (Val [])))
  ∧ valuation_base (listing (Val 0%float) (Val [])) = 100000%float
  ∧ Valuation.valuation
      (mockAIValuation integerToString (listing (Val 0%float) (Val [])))
    = 70000%float.
Proof.
  assert (absent_or_zero
            (Property.estimatedValue (listing (Val 0%float) (Val [])))) as H.
  { right; right; left. reflexivity. }
  split; [exact H |].
  destruct (valuation_default_base integerToString _ H) as [Hb Hv].
  split; [exact Hb |]. apply Hv. right; right. reflexivity.
Defined.

(** [Math.round] gives the nearest integer. *)
Lemma Math_round_nearest (x : float) : is_nearest_integer x (Math_round x).
Proof.
  unfold is_nearest_integer, Math_round.
  destruct (Prim2SF x) as [sz|si| |s m e]; try done.
  destruct (0 <=? e)%Z eqn:He; [done |]. apply Z.leb_gt in He.
  set (sm := if s then Z.neg m else Z.pos m).
  exists ((2 * sm + 2 ^ (- e)) / 2 ^ (- e + 1))%Z. split; [| done].
  assert (0 < 2 ^ (- e))%Z as HP by (apply Z.pow_pos_nonneg; lia).
  assert (2 ^ (- e + 1) = 2 * 2 ^ (- e))%Z as -> by (rewrite Z.pow_add_r; lia).
  pose proof (Z.div_mod (2 * sm + 2 ^ (- e)) (2 * 2 ^ (- e))) as Hdm.
  pose proof (Z.mod_pos_bound (2 * sm + 2 ^ (- e)) (2 * 2 ^ (- e))) as Hmb.
  nia.
Qed.

(** A closed instance of the relation, by running [Math.round]. *)
Ltac nearest_by_rounding :=
  match goal with
  | |- is_nearest_integer ?x ?y =>
      replace y with (Math_round x) by (by vm_compute);
      apply Math_round_nearest
  end.

(** The nearest integer is one number: the relation names a result. *)
Lemma is_nearest_integer_unique (x y y' : float) :
  is_nearest_integer x y → is_nearest_integer x y' → y = y'.
Proof.
  unfold is_nearest_integer.
  destruct (Prim2SF x) as [sz|si| |s m e]; try congruence.
  destruct (0 <=? e)%Z eqn:He; [congruence |]. apply Z.leb_gt in He.
  intros (n & [Hlo Hhi] & ->) (n' & [Hlo' Hhi'] & ->).
  assert (0 < 2 ^ (- e))%Z as HP by (apply Z.pow_pos_nonneg; lia).
  assert (n = n') as -> by nia. done.
Qed.

Lemma valuation_base_of (p : Property.t) :
  valuation_base p = base_of (Property.estimatedValue p).
Proof.
  unfold valuation_base, base_of, number_or, truthy_number, is_nan.
  destruct (Property.estimatedValue p) as [| |x]; try done.
  destruct (PrimFloat.eqb x 0); simpl; [done |].
  by destruct (PrimFloat.eqb x x).
Qed.

(** The result of [mockAIValuation] in the words of the contract, for a
    property with comparables: the average that it reports is the nearest
    integer of the mean of the contributions of all entries, and the
    valuation the nearest integer of 0.7 base + 0.3 average. *)
Lemma mockAIValuation_with_comparables (numberToString : float → string)
    (p : Property.t) (c : Comparable.t) (cs : list Comparable.t) :
  Property.comparables p = Val (c :: cs) →
  ∃ avg,
    is_nearest_integer
      (fold_left PrimFloat.add (List.map contribution (c :: cs)) 0
       / of_Z (Z.of_nat (length (c :: cs))))%float avg
    ∧ is_nearest_integer
        (base_of (Property.estimatedValue p) * 0.7 + avg * 0.3)%float
        (Valuation.valuation (mockAIValuation numberToString p))
    ∧ (∃ rest,
         Valuation.reasoning (mockAIValuation numberToString p)
         = "First-pass valuation: combined base estimate ("
           +:+ numberToString (base_of (Property.estimatedValue p))
           +:+ ") and comparables average ("
           +:+ numberToString avg +:+ rest)
    ∧ Valuation.confidence (mockAIValuation numberToString p) = "medium".
Proof.
  intros Hp. unfold mockAIValuation, valuation_comps. rewrite Hp.
  rewrite valuation_base_of.
  exists (valuation_compAvg (c :: cs)). split; [| split; [| split]].
  - unfold valuation_compAvg, comps_sum, comps_length.
    rewrite comps_sum_contributions. apply Math_round_nearest.
  - apply Math_round_nearest.
  - by eexists.
  - done.
Qed.

(** The same without comparables: the average is 0. *)
Lemma mockAIValuation_without_comparables (numberToString : float → string)
    (p : Property.t) :
  no_comparables p →
  is_nearest_integer
    (base_of (Property.estimatedValue p) * 0.7 + 0 * 0.3)%float
    (Valuation.valuation (mockAIValuation numberToString p))
  ∧ Valuation.confidence (mockAIValuation numberToString p) = "low".
Proof.
  intros Hp. unfold mockAIValuation.
  rewrite (no_comparables_comps _ Hp), valuation_base_of.
  split; [apply Math_round_nearest | done].
Qed.

(** C4.  Numbers are binary64 and so are the sum and the products.  For
    every property, the valuation is the integer nearest to
    0.7 * base + 0.3 * compAvg, where base is the estimate (100000 when
    the estimate is missing or falsy) and compAvg is the integer nearest
    to the arithmetic mean of the values of all comparables, and 0
    without comparables; the confidence is "medium" with at least one
    comparable and "low" without.  An estimate of 100000 without
    comparables gives 70000 with confidence "low"; with one comparable of
    value 200000 it gives 130000 with confidence "medium"; an estimate of
    101 with comparables of values 1 and 4 gives 72, from the average 3
    and the sum 71.6. *)
Theorem valuation_formula (numberToString : float → string) (p : Property.t) :
  let r := mockAIValuation numberToString p in
  (no_comparables p →
   is_nearest_integer
     (base_of (Property.estimatedValue p) * 0.7 + 0 * 0.3)%float
     (Valuation.valuation r)
   ∧ Valuation.confidence r = "low")
  ∧ (∀ c cs, Property.comparables p = Val (c :: cs) →
       ∃ compAvg,
         is_nearest_integer
           (arithmetic_mean (List.map contribution (c :: cs))) compAvg
         ∧ is_nearest_integer
             (base_of (Property.estimatedValue p) * 0.7 + compAvg * 0.3)%float
             (Valuation.valuation r)
         ∧ Valuation.confidence r = "medium")
  ∧ (Property.estimatedValue p = Val 100000%float →
     Property.comparables p = Val [] →
     Valuation.valuation r = 70000%float ∧ Valuation.confidence r = "low")
  ∧ (∀ c, Property.estimatedValue p = Val 100000%float →
          Property.comparables p = Val [c] →
          Comparable.value c = Val 200000%float →
          Valuation.valuation r = 130000%float
          ∧ Valuation.confidence r = "medium")
  ∧ (∀ c1 c2, Property.estimatedValue p = Val 101%float →
              Property.comparables p = Val [c1; c2] →
              Comparable.value c1 = Val 1%float →
              Comparable.value c2 = Val 4%float →
              Valuation.valuation r = 72%float
              ∧ Valuation.confidence r = "medium").
Proof.
  cbv zeta. split; [apply mockAIValuation_without_comparables |]. split.
  - intros c cs Hp.
    destruct (mockAIValuation_with_comparables numberToString p c cs Hp)
      as (avg & Havg & Hval & _ & Hconf).
    exists avg. split; [unfold arithmetic_mean; by rewrite length_map |].
    by split.
  - unfold mockAIValuation, valuation_base, valuation_comps.
    cbn [Valuation.valuation Valuation.confidence].
    split; [| split].
    + intros -> ->. by vm_compute.
    + intros c -> -> Hc.
      unfold valuation_compAvg, comps_sum, comps_length. cbn [fold_left].
      rewrite Hc. by vm_compute.
    + intros c1 c2 -> -> Hc1 Hc2.
      unfold valuation_compAvg, comps_sum, comps_length. cbn [fold_left].
      rewrite Hc1, Hc2. by vm_compute.
Qed.

(** C10.  For a property with comparables, the average that
    [mockAIValuation] reports and values with is the integer nearest to
    the sum of the contributions of all entries divided by the number of
    all entries; the contribution of an entry whose value is absent, null,
    a zero or NaN is 0, and the entry is counted in the divisor all the
    same.  With a single comparable that has no value the average is 0
    and the confidence "medium"; with a comparable of value 100 and one
    without value the average is 50, not 100. *)
Theorem valueless_comparable_counts (numberToString : float → string)
    (p : Property.t) (c : Comparable.t) (cs : list Comparable.t) :
  Property.comparables p = Val (c :: cs) →
  let r := mockAIValuation numberToString p in
  ∃ compAvg,
    is_nearest_integer
      (fold_left PrimFloat.add (List.map contribution (c :: cs)) 0
       / of_Z (Z.of_nat (length (c :: cs))))%float compAvg
    ∧ Forall (λ c', absent_or_zero (Comparable.value c') →
                    contribution c' = 0%float) (c :: cs)
    ∧ is_nearest_integer
        (base_of (Property.estimatedValue p) * 0.7 + compAvg * 0.3)%float
        (Valuation.valuation r)
    ∧ (∃ rest,
         Valuation.reasoning r
         = "First-pass valuation: combined base estimate ("
           +:+ numberToString (base_of (Property.estimatedValue p))
           +:+ ") and comparables average ("
           +:+ numberToString compAvg +:+ rest)
    ∧ Valuation.confidence r = "medium"
    ∧ (cs = [] → absent_or_zero (Comparable.value c) → compAvg = 0%float)
    ∧ (∀ c2, cs = [c2] → Comparable.value c = Val 100%float →
             absent_or_zero (Comparable.value c2) → compAvg = 50%float).
Proof.
  intros Hp. cbv zeta.
  destruct (mockAIValuation_with_comparables numberToString p c cs Hp)
    as (avg & Havg & Hval & Hreason & Hconf).
  exists avg. split; [done |].
  split; [apply Forall_forall; intros c' _; apply contribution_absent_or_zero |].
  split; [done |]. split; [done |]. split; [done |]. split.
  - intros -> Hc. apply (is_nearest_integer_unique _ _ _ Havg).
    cbn [List.map fold_left length].
    rewrite (contribution_absent_or_zero _ Hc). by nearest_by_rounding.
  - intros c2 -> Hc Hc2. apply (is_nearest_integer_unique _ _ _ Havg).
    cbn [List.map fold_left length].
    rewrite (contribution_absent_or_zero _ Hc2).
    unfold contribution. rewrite Hc. by nearest_by_rounding.
Qed.

Lemma valueless_comparable_counts_witness :
  let c1 := Comparable.mk "C-9f3k" (Val 100%float) in
  let c2 := Comparable.mk "C-x1y2" Undefined in
  let r := mockAIValuation integerToString
             (listing (Val 1000%float) (Val [c1; c2])) in
  ∃ compAvg,
    compAvg = 50%float
    ∧ is_nearest_integer (1000 * 0.7 + compAvg * 0.3)%float
        (Valuation.valuation r)
    ∧ Valuation.valuation r = 715%float
    ∧ Valuation.confidence r = "medium".
Proof.
  cbv zeta.
  destruct (valueless_comparable_counts integerToString
              (listing (Val 1000%float)
                 (Val [Comparable.mk "C-9f3k" (Val 100%float);
                       Comparable.mk "C-x1y2" Undefined]))
              (Comparable.mk "C-9f3k" (Val 100%float))
              [Comparable.mk "C-x1y2" Undefined] eq_refl)
    as (avg & _ & _ & Hval & _ & Hconf & _ & H50).
  exists avg. split.
  - apply (H50 _ eq_refl eq_refl). left. reflexivity.
  - split; [exact Hval |]. split; [reflexivity | exact Hconf].
Defined.

(** ** Assigning a property *)

Section Assign.

Implicit Types (p : Property.t) (properties : list Property.t).

(** The callback of the [map] in [assignToUser]. *)
Lemma assign_lookup properties propId (userId : field string) i p :
  properties !! i = Some p →
  List.map (λ p, if String.eqb (Property.id p) propId
                 then Property.with_assignedTo p userId else p)
           properties !! i
  = Some (if String.eqb (Property.id p) propId
          then Property.with_assignedTo p userId else p).
Proof.
  revert i. induction properties as [|q properties IH]; intros [|i]; simpl; try done.
  - by intros [= ->].
  - apply IH.
Qed.

Lemma assign_no_match properties propId (userId : field string) :
  (∀ p, p ∈ properties → Property.id p ≠ propId) →
  List.map (λ p, if String.eqb (Property.id p) propId
                 then Property.with_assignedTo p userId else p)
           properties
  = properties.
Proof.
  induction properties as [|q properties IH]; intros Hno; simpl; [done |].
  rewrite IH by (intros p Hp; apply Hno; by right).
  destruct (String.eqb_spec (Property.id q) propId) as [Heq|]; [| done].
  exfalso. by apply (Hno q); [left |].
Qed.

End Assign.

(** C7, as stated, fails where two properties have one id, which nothing
    in the code excludes: [assignToUser] then changes both, so more than
    the one property is changed. *)
Lemma assignToUser_changes_every_property_of_the_id :
  let p1 := listing (Val 100000%float) (Val []) in
  let p2 := listing (Val 85000%float) (Val []) in
  p1 ≠ p2
  ∧ Property.id p1 = Property.id p2
  ∧ assignToUser [p1; p2] (Property.id p1) (Val "USER-7hq2ab")
    = [setProperties [Property.with_assignedTo p1 (Val "USER-7hq2ab");
                      Property.with_assignedTo p2 (Val "USER-7hq2ab")]]
  ∧ Property.with_assignedTo p1 (Val "USER-7hq2ab") ≠ p1
  ∧ Property.with_assignedTo p2 (Val "USER-7hq2ab") ≠ p2.
Proof.
  cbv zeta. split; [| split; [done | split; [done | split]]].
  - intros H.
    apply (f_equal (λ p, number_or (Property.estimatedValue p) 0%float)) in H.
    float_discriminate H.
  - intros H. apply (f_equal Property.assignedTo) in H. discriminate H.
  - intros H. apply (f_equal Property.assignedTo) in H. discriminate H.
Qed.

(** C7, amended.  [assignToUser] issues one [setProperties] and nothing
    else, so no error is raised.  With no property of that id the new
    collection is the old one.  In general the new collection has the same
    length, and at every position it holds the old property itself when
    the id differs, and otherwise a property whose [assignedTo] is the
    given user id and whose every other field is that of the old one: each
    property of that id is set, and only its [assignedTo].  Where ids are
    unique, at most one position of the collection changes. *)
Theorem assignToUser_frame (properties : list Property.t) (propId : string)
    (userId : field string) :
  ∃ next,
    assignToUser properties propId userId = [setProperties next]
    ∧ (∀ st, let st' := run st (assignToUser properties propId userId) in
             App.properties st' = next ∧ App.alerts st' = App.alerts st
             ∧ App.users st' = App.users st ∧ App.tokens st' = App.tokens st)
    ∧ ((∀ p, p ∈ properties → Property.id p ≠ propId) → next = properties)
    ∧ length next = length properties
    ∧ (∀ i p, properties !! i = Some p →
         ∃ p', next !! i = Some p'
           ∧ (Property.id p ≠ propId → p' = p)
           ∧ (Property.id p = propId → Property.assignedTo p' = userId)
           ∧ Property.id p' = Property.id p
           ∧ Property.title p' = Property.title p
           ∧ Property.address p' = Property.address p
           ∧ Property.estimatedValue p' = Property.estimatedValue p
           ∧ Property.comparables p' = Property.comparables p
           ∧ Property.documents p' = Property.documents p
           ∧ Property.createdAt p' = Property.createdAt p
           ∧ Property.metadata p' = Property.metadata p)
    ∧ (NoDup (List.map Property.id properties) →
       ∀ i j, next !! i ≠ properties !! i → next !! j ≠ properties !! j →
              i = j).
Proof.
  eexists. split; [reflexivity |]. split; [by intros [] |].
  split; [apply assign_no_match |].
  split; [apply length_map |]. split.
  - intros i p Hp. eexists. split; [by apply assign_lookup |].
    destruct (String.eqb_spec (Property.id p) propId); by repeat split.
  - intros Hnd i j Hi Hj.
    assert (∀ k,
              List.map (λ p, if String.eqb (Property.id p) propId
                             then Property.with_assignedTo p userId else p)
                       properties !! k ≠ properties !! k →
              List.map Property.id properties !! k = Some propId) as Hchanged.
    { intros k Hk. destruct (properties !! k) as [p|] eqn:Hp.
      - rewrite (assign_lookup _ _ _ _ _ Hp) in Hk.
        change (List.map Property.id properties) with (Property.id <$> properties).
        rewrite list_lookup_fmap, Hp. simpl.
        destruct (String.eqb_spec (Property.id p) propId); congruence.
      - exfalso. apply Hk. apply lookup_ge_None. rewrite length_map.
        by apply lookup_ge_None. }
    apply (NoDup_lookup _ i j propId Hnd); by apply Hchanged.
Qed.

(** ** Adding a comparable *)

Section AddComparable.

Variables (propId : string) (value : float) (ids : nat → string).

Implicit Types (p : Property.t) (properties next : list Property.t).

Lemma matches_before_cons i p properties :
  matches_before propId (S i) (p :: properties)
  = (if String.eqb (Property.id p) propId then 1 else 0)
    + matches_before propId i properties.
Proof.
  unfold matches_before. simpl.
  by destruct (String.eqb (Property.id p) propId).
Qed.

(** The map succeeds when every property of that id has comparables. *)
Lemma addComparable_map_total k properties :
  (∀ p, p ∈ properties → Property.id p = propId →
        ∃ cs, Property.comparables p = Val cs) →
  ∃ next, addComparable_map propId value ids k properties = Some next.
Proof.
  revert k. induction properties as [|p properties IH]; intros k Hcs; simpl.
  - by eexists.
  - destruct (String.eqb_spec (Property.id p) propId) as [Hid|Hid].
    + destruct (Hcs p) as [cs ->]; [by left | done |].
      destruct (IH (S k)) as [rest' ->]; [| by eexists].
      intros q Hq. apply Hcs. by right.
    + destruct (IH k) as [rest' ->]; [| by eexists].
      intros q Hq. apply Hcs. by right.
Qed.

(** Position by position: a property of another id is kept, one of that
    id gets one more comparable at the end, with the id of its own draw. *)
Lemma addComparable_map_lookup k properties next :
  addComparable_map propId value ids k properties = Some next →
  length next = length properties
  ∧ List.map Property.id next = List.map Property.id properties
  ∧ ∀ i p, properties !! i = Some p →
      (Property.id p ≠ propId → next !! i = Some p)
      ∧ (Property.id p = propId →
         ∃ cs, Property.comparables p = Val cs
           ∧ next !! i
             = Some (Property.with_comparables p
                       (Val (cs ++ [Comparable.mk
                                      ("C-" +:+ slice 2 6
                                         (ids (k + matches_before propId i properties)))
                                      (Val value)])))).
Proof.
  revert k next. induction properties as [|p properties IH]; intros k next; simpl.
  - intros [= <-]. repeat split; try done; intros i p Hp; by destruct i.
  - destruct (String.eqb_spec (Property.id p) propId) as [Hid|Hid].
    + destruct (Property.comparables p) as [| |cs] eqn:Hcs; try done.
      destruct (addComparable_map propId value ids (S k) properties)
        as [rest'|] eqn:Hrest; [| done].
      intros [= <-]. destruct (IH _ _ Hrest) as (Hlen & Hids & Hat).
      split; [simpl; by rewrite Hlen |]. split; [simpl; by rewrite Hids |].
      intros [|i] q; simpl.
      * intros [= <-]. split; [done |]. intros _. exists cs.
        split; [done |]. unfold matches_before. simpl. by rewrite Nat.add_0_r.
      * intros Hq. destruct (Hat i q Hq) as [Hne Heq]. split; [done |].
        intros Hqid. destruct (Heq Hqid) as (cs' & Hcs' & ->). exists cs'.
        split; [done |]. rewrite matches_before_cons.
        rewrite (proj2 (String.eqb_eq _ _) Hid).
        by replace (k + (1 + matches_before propId i properties))
          with (S k + matches_before propId i properties) by lia.
    + destruct (addComparable_map propId value ids k properties)
        as [rest'|] eqn:Hrest; [| done].
      intros [= <-]. destruct (IH _ _ Hrest) as (Hlen & Hids & Hat).
      split; [simpl; by rewrite Hlen |]. split; [simpl; by rewrite Hids |].
      intros [|i] q; simpl.
      * intros [= <-]. split; [done |]. by intros ?.
      * intros Hq. destruct (Hat i q Hq) as [Hne Heq]. split; [done |].
        intros Hqid. destruct (Heq Hqid) as (cs' & Hcs' & ->). exists cs'.
        split; [done |]. rewrite matches_before_cons.
        by rewrite (proj2 (String.eqb_neq _ _) Hid).
Qed.

End AddComparable.

(** How many properties of an id come before a position depends on the
    ids alone. *)
Lemma matches_before_ids (propId : string) (l1 l2 : list Property.t) (i : nat) :
  List.map Property.id l1 = List.map Property.id l2 →
  matches_before propId i l1 = matches_before propId i l2.
Proof.
  revert l2 i. induction l1 as [|p l1 IH]; intros [|q l2] [|i]; simpl; try done.
  intros [= Hpq Hrest]. rewrite !matches_before_cons, Hpq. f_equal. by apply IH.
Qed.

(** C2, as stated, fails: [addComparable] takes no value.  Whatever value
    the caller means to supply, here 7, the entry appended carries the
    value made of the random draw, here round(0.5 * 100000 + 50000) =
    100000. *)
Lemma addComparable_ignores_supplied_value :
  let supplied := 7%float in
  let p := listing (Val 100000%float) (Val []) in
  addComparable [p] (Property.id p) 0.5%float (λ _, "0.9f3kq2")
  = [setProperties
       [Property.with_comparables p
          (Val [Comparable.mk "C-9f3k" (Val 100000%float)])]]
  ∧ Comparable.mk "C-9f3k" (Val 100000%float)
    ≠ Comparable.mk "C-9f3k" (Val supplied).
Proof.
  cbv zeta. split; [by vm_compute |].
  intros H. apply (f_equal (λ c, number_or (Comparable.value c) 0%float)) in H.
  float_discriminate H.
Qed.

(** C2, amended.  For every collection in which the properties of the
    given id carry a comparables sequence, [addComparable] issues one
    [setProperties] whose collection has, position by position, the old
    property when the id differs, and otherwise the old property with
    exactly one entry added at the end of its comparables: a generated id
    and a generated value, round(random * 100000 + 50000).  The entries
    already there are kept, in their order.  A second call adds its entry
    after that of the first. *)
Theorem addComparable_appends (properties : list Property.t)
    (propId : string) (r : float) (ids : nat → string) :
  (∀ p, p ∈ properties → Property.id p = propId →
        ∃ cs, Property.comparables p = Val cs) →
  ∃ next,
    addComparable properties propId r ids = [setProperties next]
    ∧ length next = length properties
    ∧ (∀ i p, properties !! i = Some p → Property.id p ≠ propId →
              next !! i = Some p)
    ∧ (∀ i p cs, properties !! i = Some p → Property.id p = propId →
                 Property.comparables p = Val cs →
         next !! i
         = Some (Property.with_comparables p
                   (Val (cs ++ [generated_comparable r ids
                                  (matches_before propId i properties)]))))
    ∧ (∀ r' ids', ∃ next',
         addComparable next propId r' ids' = [setProperties next']
         ∧ ∀ i p cs, properties !! i = Some p → Property.id p = propId →
                     Property.comparables p = Val cs →
             next' !! i
             = Some (Property.with_comparables p
                       (Val (cs ++ [generated_comparable r ids
                                      (matches_before propId i properties);
                                    generated_comparable r' ids'
                                      (matches_before propId i properties)])))).
Proof.
  intros Hcs. unfold addComparable.
  destruct (addComparable_map_total propId
              (Math_round (r * 100000 + 50000)%float) ids 0 properties Hcs)
    as [next Hnext].
  rewrite Hnext. exists next. split; [done |].
  destruct (addComparable_map_lookup _ _ _ _ _ _ Hnext) as (Hlen & Hids & Hat).
  split; [done |]. split; [intros i p Hp; by apply Hat |].
  assert (∀ i p cs, properties !! i = Some p → Property.id p = propId →
                    Property.comparables p = Val cs →
            next !! i
            = Some (Property.with_comparables p
                      (Val (cs ++ [generated_comparable r ids
                                     (matches_before propId i properties)]))))
    as Hfirst.
  { intros i p cs Hp Hid Hpcs. destruct (Hat i p Hp) as [_ Heq].
    destruct (Heq Hid) as (cs' & Hcs' & ->).
    rewrite Hpcs in Hcs'. by injection Hcs' as <-. }
  split; [done |]. intros r' ids'.
  destruct (addComparable_map_total propId
              (Math_round (r' * 100000 + 50000)%float) ids' 0 next)
    as [next' Hnext'].
  { intros q Hq Hqid. apply list_elem_of_lookup in Hq as [i Hq].
    destruct (lookup_lt_is_Some_2 properties i) as [p Hp].
    { rewrite <- Hlen. by eapply lookup_lt_Some. }
    destruct (Hat i p Hp) as [Hne Heq].
    destruct (decide (Property.id p = propId)) as [Hid|Hid].
    - destruct (Heq Hid) as (cs & _ & Hq'). rewrite Hq' in Hq.
      injection Hq as <-. by eexists.
    - rewrite (Hne Hid) in Hq. injection Hq as <-. contradiction. }
  rewrite Hnext'. exists next'. split; [done |].
  destruct (addComparable_map_lookup _ _ _ _ _ _ Hnext') as (_ & _ & Hat').
  intros i p cs Hp Hid Hpcs. pose proof (Hfirst i p cs Hp Hid Hpcs) as Hi.
  destruct (Hat' i _ Hi) as [_ Heq]. destruct (Heq Hid) as (cs' & Hcs' & ->).
  simpl in Hcs'. injection Hcs' as <-.
  rewrite (matches_before_ids propId next properties i Hids).
  unfold Property.with_comparables, generated_comparable. simpl.
  by rewrite <- app_assoc.
Qed.

Lemma addComparable_appends_witness :
  ∃ next,
    addComparable [listing (Val 100000%float) (Val [])] "PROP-k3x9qa"
      0.5%float (λ _, "0.9f3kq2")
    = [setProperties next]
    ∧ length next = 1.
Proof.
  destruct (addComparable_appends [listing (Val 100000%float) (Val [])]
              "PROP-k3x9qa" 0.5%float (λ _, "0.9f3kq2"))
    as (next & Htrace & Hlen & _).
  - intros p Hp _. apply list_elem_of_singleton in Hp as ->. by eexists.
  - exists next. by split.
Defined.

(** ** Signing up and logging in *)

Section Login.

Implicit Types (u : User.t) (users : list User.t) (name phone : string).

Lemma truthy_string_true (s : string) : s ≠ EmptyString → truthy_string s = true.
Proof. by destruct s. Qed.

(** [slice(b, e)] gives at most [e - b] characters, and fewer of a text
    that ends before [e]. *)
Lemma slice_length (b e : nat) (s : string) :
  String.length (slice b e s) ≤ e - b.
Proof.
  unfold slice. generalize (e - b) as m. revert b.
  induction s as [|c s IH]; intros [|b] [|m]; simpl; try lia.
  - specialize (IH 0 m). lia.
  - apply IH.
  - apply IH.
Qed.

(** No user has the phone: [find] finds none. *)
Lemma find_phone_none users phone :
  (∀ u, u ∈ users → User.phone u ≠ phone) →
  List.find (λ u, String.eqb (User.phone u) phone) users = None.
Proof.
  induction users as [|v users IH]; intros Hno; simpl; [done |].
  rewrite (proj2 (String.eqb_neq _ _)) by (apply Hno; by left).
  apply IH. intros u Hu. apply Hno. by right.
Qed.

(** Where phones are unique, [find] finds the one user of a phone. *)
Lemma find_phone_unique users phone u :
  NoDup (List.map User.phone users) → u ∈ users → User.phone u = phone →
  List.find (λ u, String.eqb (User.phone u) phone) users = Some u.
Proof.
  induction users as [|v users IH]; simpl; intros Hnd Hu Hphone.
  - by apply elem_of_nil in Hu.
  - apply NoDup_cons in Hnd as [Hv Hnd].
    apply elem_of_cons in Hu as [<- | Hu].
    + by rewrite (proj2 (String.eqb_eq _ _) Hphone).
    + destruct (String.eqb_spec (User.phone v) phone) as [Hvp|_]; [| by apply IH].
      exfalso. apply Hv. rewrite Hvp, <- Hphone.
      change (List.map User.phone users) with (User.phone <$> users).
      by apply list_elem_of_fmap_2.
Qed.

End Login.

(** C5, as stated, fails for the empty name: the phone of [bob] with no
    name is turned down for the missing field, with the alert
    'Enter name and phone', before the stored name is looked at. *)
Lemma empty_name_is_not_a_mismatch :
  bob ∈ [bob] ∧ User.phone bob = "0712345678" ∧ User.name bob ≠ ""
  ∧ signupOrLogin [bob] "" "0712345678" "0.r4nd0mx1"
    = [Alert_alert "Enter name and phone" Undefined]
  ∧ signupOrLogin [bob] "" "0712345678" "0.r4nd0mx1"
    ≠ [Alert_alert "Name does not match phone" Undefined].
Proof.
  split; [by left |]. split; [done |]. split; [done |]. split; [done |].
  by vm_compute.
Qed.

(** C5, amended.  For a name and a phone that are not empty, when the user
    stored under that phone (the first entry with it, which is the only one
    where phones are unique) has a name that differs from the given one,
    compared exactly, the attempt fails with the alert
    'Name does not match phone' and nothing else happens: nobody is logged
    in, no user is created, and the collection and its stored copy are
    as before. *)
Theorem login_name_mismatch (users : list User.t) (name phone r36 : string)
    (found : User.t) :
  name ≠ "" → phone ≠ "" →
  List.find (λ u, String.eqb (User.phone u) phone) users = Some found →
  User.name found ≠ name →
  signupOrLogin users name phone r36
  = [Alert_alert "Name does not match phone" Undefined]
  ∧ ∀ st, let st' := run st (signupOrLogin users name phone r36) in
          App.users st' = App.users st
          ∧ App.user st' = App.user st
          ∧ App.storage st' = App.storage st
          ∧ App.alerts st'
            = App.alerts st ++ [("Name does not match phone", Undefined)].
Proof.
  intros Hname Hphone Hfound Hdiff.
  assert (signupOrLogin users name phone r36
          = [Alert_alert "Name does not match phone" Undefined]) as ->.
  { unfold signupOrLogin.
    rewrite !truthy_string_true, Hfound by done. simpl.
    by rewrite (proj2 (String.eqb_neq _ _) Hdiff). }
  split; [done |]. by intros [].
Qed.

Lemma login_name_mismatch_witness :
  signupOrLogin [bob] "Bob" "0712345678" "0.r4nd0mx1"
  = [Alert_alert "Name does not match phone" Undefined].
Proof.
  apply (login_name_mismatch [bob] "Bob" "0712345678" "0.r4nd0mx1" bob).
  - discriminate.
  - discriminate.
  - reflexivity.
  - discriminate.
Defined.

(** C6, as stated, fails twice over.  The id of the new user is not
    checked against the ids in use: a draw that renders as 0.7hq2ab...
    gives a second user the id of [bob].  And a phone never seen before
    creates no user when the name is empty. *)
Lemma signup_id_collides_and_needs_a_name :
  (signupOrLogin [bob] "eve" "0799000111" "0.7hq2abw3k5"
   = [setUsers [bob; User.mk "USER-7hq2ab" "eve" "0799000111"];
      save STORAGE_KEYS.USERS
        (StoredUsers [bob; User.mk "USER-7hq2ab" "eve" "0799000111"]);
      onLogin (User.mk "USER-7hq2ab" "eve" "0799000111")]
   ∧ User.id (User.mk "USER-7hq2ab" "eve" "0799000111") = User.id bob)
  ∧ signupOrLogin [bob] "" "0799000111" "0.x81kq0p2mz"
    = [Alert_alert "Enter name and phone" Undefined].
Proof. by vm_compute. Qed.

(** C6, amended.  For a name and a phone that are not empty, the phone
    being that of no user of the collection, exactly one user is created:
    it carries the name, the phone and a generated id, 'USER-' followed by
    the characters at positions 2 to 7 of the draw rendered in radix 36,
    which are six at most and fewer when the rendering is short (the id is
    not compared with the ids in use).  It is added at the end of the
    collection, which is saved, and it is the user logged in. *)
Theorem signup_creates_user (users : list User.t) (name phone r36 : string) :
  name ≠ "" → phone ≠ "" →
  (∀ u, u ∈ users → User.phone u ≠ phone) →
  let newUser := User.mk ("USER-" +:+ slice 2 8 r36) name phone in
  signupOrLogin users name phone r36
  = [setUsers (users ++ [newUser]);
     save STORAGE_KEYS.USERS (StoredUsers (users ++ [newUser]));
     onLogin newUser]
  ∧ (∃ suffix, User.id newUser = "USER-" +:+ suffix
               ∧ String.length suffix ≤ 6)
  ∧ ∀ st, let st' := run st (signupOrLogin users name phone r36) in
          App.users st' = users ++ [newUser]
          ∧ length (App.users st') = S (length users)
          ∧ App.user st' = Val newUser
          ∧ App.storage st' !! STORAGE_KEYS.USERS
            = Some (StoredUsers (users ++ [newUser]))
          ∧ App.alerts st' = App.alerts st.
Proof.
  intros Hname Hphone Hnew newUser.
  assert (signupOrLogin users name phone r36
          = [setUsers (users ++ [newUser]);
             save STORAGE_KEYS.USERS (StoredUsers (users ++ [newUser]));
             onLogin newUser]) as ->.
  { unfold signupOrLogin.
    by rewrite !truthy_string_true, find_phone_none by done. }
  split; [done |].
  split; [eexists; split; [reflexivity | apply (slice_length 2 8)] |].
  intros []. cbn.
  split; [done |]. split; [rewrite length_app; simpl; lia |].
  split; [done |]. split; [| done].
  by rewrite insert_insert_eq, lookup_insert_eq.
Qed.

Lemma signup_creates_user_witness :
  signupOrLogin [bob] "eve" "0799000111" "0.x81kq0p2mz"
  = [setUsers [bob; User.mk "USER-x81kq0" "eve" "0799000111"];
     save STORAGE_KEYS.USERS
       (StoredUsers [bob; User.mk "USER-x81kq0" "eve" "0799000111"]);
     onLogin (User.mk "USER-x81kq0" "eve" "0799000111")].
Proof.
  apply (signup_creates_user [bob] "eve" "0799000111" "0.x81kq0p2mz").
  - discriminate.
  - discriminate.
  - intros u Hu. apply list_elem_of_singleton in Hu as ->. discriminate.
Defined.

(** ** Creating a property *)

(** C8, as stated, fails on the uniqueness of the id, which is not checked
    against the ids in use: a draw that renders as 0.k3x9qa... gives the
    new property the id of the listing already in the collection. *)
Lemma createProperty_id_collides :
  let old := listing (Val 100000%float) (Val []) in
  ∃ prop,
    createProperty digitsToNumber [old] "Lake Lodge" "9 Shore Lane" "85000" ""
      "0.k3x9qa5m2v" "2024-06-11T08:30:00.000Z"
    = [setProperties [prop; old];
       setTitle ""; setAddress ""; setEstimatedValue ""; setAssignedTo ""]
    ∧ Property.title prop = Val "Lake Lodge"
    ∧ Property.id prop = Property.id old.
Proof. cbv zeta. eexists. by vm_compute. Qed.

(** C8, amended.  With an empty title [createProperty] only alerts
    'Enter title' and the collection stays as it is.  With any other title
    it puts exactly one new property at the head of the collection, before
    the old ones in their order: its id is generated, 'PROP-' followed by
    the characters at positions 2 to 7 of the draw rendered in radix 36,
    which are six at most and fewer when the rendering is short (it is not
    compared with the ids in use), its comparables and documents are
    empty, and its [assignedTo] is null when the input is empty and the
    input otherwise. *)
Theorem createProperty_contract (Number : string → float)
    (properties : list Property.t)
    (title address estimatedValue assignedTo r36 now : string) :
  let trace := createProperty Number properties title address estimatedValue
                 assignedTo r36 now in
  (title = "" →
   trace = [Alert_alert "Enter title" Undefined]
   ∧ ∀ st, App.properties (run st trace) = App.properties st)
  ∧ (title ≠ "" →
     ∃ prop,
       trace = [setProperties (prop :: properties);
                setTitle ""; setAddress ""; setEstimatedValue "";
                setAssignedTo ""]
       ∧ Property.id prop = "PROP-" +:+ slice 2 8 r36
       ∧ String.length (slice 2 8 r36) ≤ 6
       ∧ Property.title prop = Val title
       ∧ Property.address prop = Val address
       ∧ Property.comparables prop = Val []
       ∧ Property.documents prop = []
       ∧ (assignedTo = "" → Property.assignedTo prop = Null)
       ∧ (assignedTo ≠ "" → Property.assignedTo prop = Val assignedTo)
       ∧ Property.createdAt prop = now
       ∧ ∀ st, App.properties (run st trace) = prop :: properties
               ∧ App.alerts (run st trace) = App.alerts st).
Proof.
  cbv zeta. unfold createProperty. split.
  - intros ->. simpl. split; [done |]. by intros [].
  - intros Htitle. rewrite (truthy_string_true _ Htitle). simpl.
    eexists. split; [reflexivity |]. simpl. split; [done |].
    split; [apply (slice_length 2 8) |]. repeat split; try done.
    + by intros ->.
    + intros Ha. by rewrite (truthy_string_true _ Ha).
    + by destruct st.
    + by destruct st.
Qed.

(** ** Minting *)

Section TokenIds.

Implicit Types (s : string) (c : ascii).

Lemma lower_upper_digit36 c :
  is_digit36 c = true → lower_char (upper_char c) = c.
Proof.
  destruct c as [[] [] [] [] [] [] [] []]; vm_compute; (done || discriminate).
Qed.

Lemma upper_digit36_alnum c :
  is_digit36 c = true → is_upper_alnum (upper_char c) = true.
Proof.
  destruct c as [[] [] [] [] [] [] [] []]; vm_compute; (done || discriminate).
Qed.

Lemma toLowerCase_toUpperCase s :
  all_chars is_digit36 s = true → toLowerCase (toUpperCase s) = s.
Proof.
  induction s as [|c s IH]; simpl; [done |].
  intros [Hc Hs]%andb_true_iff.
  unfold toLowerCase, toUpperCase in *. simpl.
  by rewrite lower_upper_digit36, IH.
Qed.

(** Upper-casing loses nothing on digits of radix 36. *)
Lemma toUpperCase_inj s1 s2 :
  all_chars is_digit36 s1 = true → all_chars is_digit36 s2 = true →
  toUpperCase s1 = toUpperCase s2 → s1 = s2.
Proof.
  intros H1 H2 Heq.
  by rewrite <- (toLowerCase_toUpperCase s1 H1), Heq, toLowerCase_toUpperCase.
Qed.

Lemma toUpperCase_alnum s :
  all_chars is_digit36 s = true → all_chars is_upper_alnum (toUpperCase s) = true.
Proof.
  unfold toUpperCase. induction s as [|c s IH]; simpl; [done |].
  intros [Hc Hs]%andb_true_iff. by rewrite upper_digit36_alnum, IH.
Qed.

Lemma all_chars_substring (f : ascii → bool) n s :
  all_chars f s = true → all_chars f (String.substring 0 n s) = true.
Proof.
  revert s. induction n as [|n IH]; intros [|c s]; simpl; try done.
  intros [Hc Hs]%andb_true_iff. by rewrite Hc, IH.
Qed.

Lemma length_substring n s : String.length (String.substring 0 n s) ≤ n.
Proof.
  revert s. induction n as [|n IH]; intros [|c s]; simpl; try lia.
  specialize (IH s). lia.
Qed.

(** The seven characters that [slice(2,9)] takes of a draw are digits. *)
Lemma slice_fraction_digits r36 :
  is_radix36_fraction r36 = true → all_chars is_digit36 (slice 2 9 r36) = true.
Proof.
  unfold slice. destruct r36 as [|z [|pt digits]]; simpl; try done.
  rewrite !andb_true_iff. intros [_ Hd]. by apply all_chars_substring.
Qed.

Lemma slice_fraction_length r36 : String.length (slice 2 9 r36) ≤ 7.
Proof.
  unfold slice. destruct r36 as [|z [|pt digits]]; simpl; try lia.
  apply length_substring.
Qed.

End TokenIds.

(** C9, as stated, fails on distinctness: nothing compares a new id with
    the ids minted before.  Two draws that differ only after their seventh
    digit of radix 36 give two tokens of one id, both kept in the
    collection. *)
Lemma minted_ids_can_repeat :
  is_radix36_fraction (MintCall.r36 first_mint) = true
  ∧ is_radix36_fraction (MintCall.r36 second_mint) = true
  ∧ MintCall.r36 first_mint ≠ MintCall.r36 second_mint
  ∧ Token.id (mint first_mint) = "TOKEN-4FZYO82"
  ∧ Token.id (mint second_mint) = Token.id (mint first_mint)
  ∧ App.tokens
      (run (run App.initial
              (acceptAndMint bob [] (MintCall.property first_mint)
                 (MintCall.r36 first_mint) (MintCall.now first_mint)))
           (acceptAndMint bob [mint first_mint] (MintCall.property second_mint)
              (MintCall.r36 second_mint) (MintCall.now second_mint)))
    = [mint second_mint; mint first_mint].
Proof. by vm_compute. Qed.

(** C9, amended.  For every sequence of mint invocations of a run, each
    token id is the prefix 'TOKEN-' followed by at most seven upper-case
    alphanumeric characters, the upper-cased digits at positions 2 to 8 of
    the draw rendered in radix 36; it is never empty.  The ids of the run
    are pairwise distinct exactly when those digits are pairwise distinct
    among the draws: no id is compared with the ids minted before. *)
Theorem mint_token_ids (calls : list MintCall.t) :
  Forall (λ c, is_radix36_fraction (MintCall.r36 c) = true) calls →
  (∀ c, c ∈ calls →
     ∃ suffix,
       Token.id (mint c) = "TOKEN-" +:+ suffix
       ∧ Token.id (mint c) ≠ ""
       ∧ suffix = toUpperCase (slice 2 9 (MintCall.r36 c))
       ∧ all_chars is_upper_alnum suffix = true
       ∧ String.length suffix ≤ 7)
  ∧ (NoDup ((λ c, Token.id (mint c)) <$> calls)
     ↔ NoDup ((λ c, slice 2 9 (MintCall.r36 c)) <$> calls)).
Proof.
  intros Hvalid. rewrite Forall_forall in Hvalid. split.
  - intros c Hc. eexists. split; [reflexivity |]. split; [done |].
    split; [done |]. split.
    + apply toUpperCase_alnum, slice_fraction_digits, Hvalid, Hc.
    + assert (∀ s, String.length (toUpperCase s) = String.length s) as ->.
      { induction s as [|a s IH]; simpl; [done | by rewrite <- IH]. }
      apply slice_fraction_length.
  - change ((λ c, Token.id (mint c)) <$> calls)
      with ((λ c, "TOKEN-" +:+ toUpperCase (slice 2 9 (MintCall.r36 c))) <$> calls).
    rewrite (list_fmap_compose (λ c, slice 2 9 (MintCall.r36 c))
               (λ s, "TOKEN-" +:+ toUpperCase s) calls
             : ((λ c, "TOKEN-" +:+ toUpperCase (slice 2 9 (MintCall.r36 c)))
                  <$> calls) = _).
    split; [apply NoDup_fmap_1 |].
    apply NoDup_fmap_2_strong. intros s1 s2 Hs1 Hs2 [= Heq].
    apply list_elem_of_fmap in Hs1 as (c1 & -> & Hc1).
    apply list_elem_of_fmap in Hs2 as (c2 & -> & Hc2).
    apply toUpperCase_inj; [| | done];
      apply slice_fraction_digits, Hvalid; done.
Qed.

Lemma mint_token_ids_witness :
  NoDup ((λ c, Token.id (mint c)) <$> [first_mint; third_mint])
  ∧ ¬ NoDup ((λ c, Token.id (mint c)) <$> [first_mint; second_mint]).
Proof.
  split.
  - destruct (mint_token_ids [first_mint; third_mint]) as [_ [_ Hfrom]].
    + repeat constructor.
    + apply Hfrom. compute_done.
  - destruct (mint_token_ids [first_mint; second_mint]) as [_ [Hto _]].
    + repeat constructor.
    + intros Hnd. apply Hto in Hnd. revert Hnd. compute_done.
Defined.

(** * Further properties *)

(** ** Identity across calls *)

Section Identity.

Implicit Types (u : User.t) (users : list User.t) (name phone : string).

Lemma find_phone_last users phone u :
  (∀ v, v ∈ users → User.phone v ≠ phone) → User.phone u = phone →
  List.find (λ v, String.eqb (User.phone v) phone) (users ++ [u]) = Some u.
Proof.
  induction users as [|w users IH]; intros Hno Hu; simpl.
  - by rewrite (proj2 (String.eqb_eq _ _) Hu).
  - rewrite (proj2 (String.eqb_neq _ _)) by (apply Hno; by left).
    apply IH; [| done]. intros v Hv. apply Hno. by right.
Qed.

(** What [find] finds is a user of the collection, with the phone. *)
Lemma find_phone_some users phone u :
  List.find (λ v, String.eqb (User.phone v) phone) users = Some u →
  u ∈ users ∧ User.phone u = phone.
Proof.
  intros [Hin Heq]%find_some. split; [by apply list_elem_of_In |].
  by apply String.eqb_eq.
Qed.

(** [find] finds none: no user has the phone. *)
Lemma find_phone_none_inv users phone :
  List.find (λ v, String.eqb (User.phone v) phone) users = None →
  ∀ u, u ∈ users → User.phone u ≠ phone.
Proof.
  intros Hnone u Hu%list_elem_of_In.
  apply String.eqb_neq. apply (find_none _ _ Hnone u Hu).
Qed.

End Identity.

(** X1.  Once a phone has signed up, the same name and phone log that
    same user in again, whatever is drawn, and nothing else happens; any
    other name with that phone is refused. *)
Theorem signup_then_login (users : list User.t) (name phone r36 : string) :
  name ≠ "" → phone ≠ "" →
  (∀ u, u ∈ users → User.phone u ≠ phone) →
  let newUser := User.mk ("USER-" +:+ slice 2 8 r36) name phone in
  let next := users ++ [newUser] in
  (∀ r36', signupOrLogin next name phone r36' = [onLogin newUser])
  ∧ (∀ name' r36', name' ≠ "" → name' ≠ name →
       signupOrLogin next name' phone r36'
       = [Alert_alert "Name does not match phone" Undefined]).
Proof.
  intros Hname Hphone Hnew newUser next.
  assert (List.find (λ v, String.eqb (User.phone v) phone) next = Some newUser)
    as Hfind by (by apply find_phone_last).
  split.
  - intros r36'. unfold signupOrLogin.
    rewrite !truthy_string_true, Hfind by done. simpl.
    by rewrite String.eqb_refl.
  - intros name' r36' Hname' Hdiff. unfold signupOrLogin.
    rewrite !truthy_string_true, Hfind by done. simpl.
    by rewrite (proj2 (String.eqb_neq _ _)) by done.
Qed.

Lemma signup_then_login_witness :
  signupOrLogin [bob; User.mk "USER-x81kq0" "eve" "0799000111"]
    "eve" "0799000111" "0.zzzzzzzzz"
  = [onLogin (User.mk "USER-x81kq0" "eve" "0799000111")].
Proof.
  apply (signup_then_login [bob] "eve" "0799000111" "0.x81kq0p2mz").
  - discriminate.
  - discriminate.
  - intros u Hu. apply list_elem_of_singleton in Hu as ->. discriminate.
Defined.

(** X2.  Whatever the name and the phone, [signupOrLogin] keeps the
    users it was given, in their order and unchanged, and adds at most
    one; where phones were unique and nobody lacked a name or a phone,
    that is still so afterwards. *)
Theorem signupOrLogin_keeps_users (st : App.State) (name phone r36 : string) :
  let st' := run st (signupOrLogin (App.users st) name phone r36) in
  App.users st `prefix_of` App.users st'
  ∧ length (App.users st') ≤ S (length (App.users st))
  ∧ (users_ok (App.users st) → users_ok (App.users st')).
Proof.
  cbv zeta. unfold signupOrLogin.
  destruct (truthy_string name) eqn:Hname; simpl;
    [| destruct st; simpl; split; [done | split; [lia | done]]].
  destruct (truthy_string phone) eqn:Hphone; simpl;
    [| destruct st; simpl; split; [done | split; [lia | done]]].
  destruct (List.find _ (App.users st)) as [found|] eqn:Hfind.
  - destruct (negb _); destruct st; simpl; (split; [done | split; [lia | done]]).
  - destruct st as [u us ps ts sc ti ad ev at_ sto al]; simpl in *.
    split; [by apply prefix_app_r |].
    split; [rewrite length_app; simpl; lia |].
    intros [Hnd Hall]. split.
    + change (List.map User.phone (us ++ [User.mk ("USER-" +:+ slice 2 8 r36) name phone]))
        with (User.phone <$> (us ++ [User.mk ("USER-" +:+ slice 2 8 r36) name phone])).
      rewrite fmap_app. simpl. apply NoDup_app. split; [done |].
      split; [| apply NoDup_singleton].
      intros x Hx Hx'. apply list_elem_of_singleton in Hx' as ->.
      apply list_elem_of_fmap in Hx as (v & Hv & Hin).
      by apply (find_phone_none_inv _ _ Hfind v Hin).
    + apply Forall_app. split; [done |]. apply Forall_singleton. simpl.
      split; intros ->; done.
Qed.

(** ** The role *)

Lemma isAdmin_name (u : User.t) :
  isAdmin (Val u) = String.eqb (toLowerCase (User.name u)) "admin".
Proof. unfold isAdmin. by destruct (User.name u). Qed.

Lemma App_render_onLogin (st : App.State) (u : User.t) :
  App_render (run1 st (onLogin u))
  = if String.eqb (toLowerCase (User.name u)) "admin"
    then Component.AdminDashboard else Component.UserDashboard.
Proof.
  destruct st. unfold App_render. cbn [run1 App.user]. by rewrite isAdmin_name.
Qed.

(** X3.  Whoever gets past [signupOrLogin] with a name that is 'admin'
    up to letter case sees the administrator's dashboard, and with any
    other name the user's dashboard: a phone never seen before is enough,
    and the stored role is nothing but the name. *)
Theorem name_decides_dashboard (st : App.State) (name phone r36 : string) :
  name ≠ "" → phone ≠ "" →
  (∀ found, List.find (λ u, String.eqb (User.phone u) phone) (App.users st)
            = Some found → User.name found = name) →
  App_render (run st (signupOrLogin (App.users st) name phone r36))
  = if String.eqb (toLowerCase name) "admin"
    then Component.AdminDashboard else Component.UserDashboard.
Proof.
  intros Hname Hphone Hsame. unfold signupOrLogin.
  rewrite !truthy_string_true by done. cbn [negb orb].
  destruct (List.find _ (App.users st)) as [found|] eqn:Hfind.
  - rewrite (Hsame found eq_refl), String.eqb_refl. cbn [negb].
    unfold run. cbn [fold_left]. rewrite App_render_onLogin.
    by rewrite (Hsame found eq_refl).
  - unfold run. cbn [fold_left]. by rewrite App_render_onLogin.
Qed.

Lemma name_decides_dashboard_witness :
  App_render (run App.initial
                (signupOrLogin (App.users App.initial) "Admin" "000" "0.q1w2e3r4"))
  = Component.AdminDashboard.
Proof.
  apply (name_decides_dashboard App.initial "Admin" "000" "0.q1w2e3r4").
  - discriminate.
  - discriminate.
  - intros found H. discriminate H.
Defined.

(** ** Assignment and the lists of [UserDashboard] *)

Section AssignedLists.

Variables (propId : string) (userId : field string).

Lemma assignToUser_assign_one (properties : list Property.t) :
  assignToUser properties propId userId
  = [setProperties (List.map (assign_one propId userId) properties)].
Proof. done. Qed.

Lemma assigned_to_assign_one (user : User.t) (p : Property.t) :
  assigned_to user (assign_one propId userId p)
  = if String.eqb (Property.id p) propId then names_user userId user
    else assigned_to user p.
Proof.
  unfold assign_one, names_user.
  destruct (String.eqb (Property.id p) propId); [| done].
  unfold assigned_to. simpl. by destruct userId.
Qed.

Lemma assigned_assign_named (user : User.t) (properties : list Property.t) :
  names_user userId user = true →
  assigned user (List.map (assign_one propId userId) properties)
  = List.map (assign_one propId userId)
      (List.filter (λ p, String.eqb (Property.id p) propId || assigned_to user p)
                   properties).
Proof.
  intros Hu. unfold assigned.
  induction properties as [|p properties IH]; simpl; [done |].
  rewrite assigned_to_assign_one, Hu, IH.
  by destruct (String.eqb (Property.id p) propId), (assigned_to user p).
Qed.

Lemma assigned_assign_other (user : User.t) (properties : list Property.t) :
  names_user userId user = false →
  assigned user (List.map (assign_one propId userId) properties)
  = List.filter (λ p, negb (String.eqb (Property.id p) propId)
                      && assigned_to user p)
                properties.
Proof.
  intros Hu. unfold assigned.
  induction properties as [|p properties IH]; simpl; [done |].
  rewrite assigned_to_assign_one, Hu, IH. unfold assign_one.
  by destruct (String.eqb (Property.id p) propId), (assigned_to user p).
Qed.

End AssignedLists.

(** X4.  After [assignToUser(propId, userId)] the list of assigned
    properties of a user whose id is the one that [userId] gives holds the
    properties of that id, updated, together with what it held before; the
    list of a user with any other id holds what it held before less the
    properties of that id. *)
Theorem assignment_moves_property (properties : list Property.t)
    (propId : string) (userId : field string) (user : User.t) :
  ∃ next,
    assignToUser properties propId userId = [setProperties next]
    ∧ (names_user userId user = true →
       assigned user next
       = List.map (assign_one propId userId)
           (List.filter (λ p, String.eqb (Property.id p) propId
                              || assigned_to user p)
                        properties))
    ∧ (names_user userId user = false →
       assigned user next
       = List.filter (λ p, negb (String.eqb (Property.id p) propId)
                           && assigned_to user p)
                     properties).
Proof.
  eexists. split; [apply assignToUser_assign_one |].
  split; [apply assigned_assign_named | apply assigned_assign_other].
Qed.

(** X5.  The Assign button of a property card assigns to the first user
    of the collection: afterwards the property has the id of that user as
    its [assignedTo], it is in the assigned list of that user, and it is in
    the list of no user with another id.  With no user in the collection
    the button sets [assignedTo] to null and so takes the property out of
    every list. *)
Theorem assign_button_targets_first_user (Number : string → float)
    (st : App.State) (i : nat) (p : Property.t) :
  App.properties st !! i = Some p →
  ∃ next,
    AdminDashboard_handle Number st (PressAssign i) = [setProperties next]
    ∧ match App.users st with
      | [] =>
          (∃ p', next !! i = Some p' ∧ Property.assignedTo p' = Null)
          ∧ ∀ user,
              assigned user next
              = List.filter (λ q, negb (String.eqb (Property.id q) (Property.id p))
                                  && assigned_to user q)
                            (App.properties st)
      | first :: _ =>
          User.id first ≠ "" →
          (∃ p', next !! i = Some p' ∧ p' ∈ assigned first next
                 ∧ Property.assignedTo p' = Val (User.id first))
          ∧ ∀ user, User.id user ≠ User.id first →
              assigned user next
              = List.filter (λ q, negb (String.eqb (Property.id q) (Property.id p))
                                  && assigned_to user q)
                            (App.properties st)
      end.
Proof.
  intros Hp. unfold AdminDashboard_handle. rewrite Hp.
  eexists. split; [apply assignToUser_assign_one |].
  assert (∀ userId,
            List.map (assign_one (Property.id p) userId) (App.properties st) !! i
            = Some (Property.with_assignedTo p userId)) as Hi.
  { intros userId. change (List.map ?f ?l) with (f <$> l).
    rewrite list_lookup_fmap, Hp. simpl. unfold assign_one.
    by rewrite String.eqb_refl. }
  destruct (App.users st) as [|first users]; simpl.
  - split; [by eexists |]. intros user. by apply assigned_assign_other.
  - intros Hid. rewrite (truthy_string_true _ Hid). split.
    + eexists. split; [apply Hi |]. split; [| done].
      unfold assigned. apply list_elem_of_In, filter_In. split.
      * apply list_elem_of_In. eapply list_elem_of_lookup_2. apply Hi.
      * unfold assigned_to. simpl. apply String.eqb_refl.
    + intros user Hne. apply assigned_assign_other. simpl.
      apply String.eqb_neq. congruence.
Qed.

(** The witness: a session in which an administrator signs up and creates
    a property, and a collection restored without its users. *)
Lemma assign_button_targets_first_user_witness :
  (∃ next p',
     AdminDashboard_handle digitsToNumber
       (session digitsToNumber integerToString
          [PressContinue "admin" "000" "0.q1w2e3r4";
           TypeTitle "Hill House";
           PressCreateProperty "0.k3x9qa5m2v" "2024-05-01T10:00:00.000Z"])
       (PressAssign 0)
     = [setProperties next]
     ∧ next !! 0 = Some p'
     ∧ Property.assignedTo p' = Val "USER-q1w2e3")
  ∧ (∃ next p',
       AdminDashboard_handle digitsToNumber
         (run App.initial
            [setProperties
               [Property.with_assignedTo (listing (Val 100000%float) (Val []))
                                         (Val "USER-7hq2ab")]])
         (PressAssign 0)
       = [setProperties next]
       ∧ next !! 0 = Some p'
       ∧ Property.assignedTo p' = Null).
Proof.
  split.
  - edestruct (assign_button_targets_first_user digitsToNumber
                 (session digitsToNumber integerToString
                    [PressContinue "admin" "000" "0.q1w2e3r4";
                     TypeTitle "Hill House";
                     PressCreateProperty "0.k3x9qa5m2v"
                       "2024-05-01T10:00:00.000Z"]) 0)
      as (next & Htrace & Hfirst); [reflexivity |].
    destruct Hfirst as [(p' & Hp' & _ & Hassigned) _]; [discriminate |].
    exists next, p'. split; [exact Htrace |]. split; [exact Hp' |].
    exact Hassigned.
  - edestruct (assign_button_targets_first_user digitsToNumber
                 (run App.initial
                    [setProperties
                       [Property.with_assignedTo
                          (listing (Val 100000%float) (Val []))
                          (Val "USER-7hq2ab")]]) 0)
      as (next & Htrace & [(p' & Hp' & Hnull) _]); [reflexivity |].
    exists next, p'. split; [exact Htrace |]. split; [exact Hp' |].
    exact Hnull.
Defined.

(** ** Adding a comparable: the unknown id and the missing sequence *)

Section AddComparableEdges.

Variables (propId : string) (value : float) (ids : nat → string).

Lemma addComparable_map_no_match k (properties : list Property.t) :
  (∀ p, p ∈ properties → Property.id p ≠ propId) →
  addComparable_map propId value ids k properties = Some properties.
Proof.
  induction properties as [|p properties IH]; intros Hno; simpl; [done |].
  rewrite (proj2 (String.eqb_neq _ _)) by (apply Hno; by left).
  rewrite IH; [done |]. intros q Hq. apply Hno. by right.
Qed.

Lemma addComparable_map_throws k (properties : list Property.t) (p : Property.t) :
  p ∈ properties → Property.id p = propId →
  (∀ cs, Property.comparables p ≠ Val cs) →
  addComparable_map propId value ids k properties = None.
Proof.
  revert k. induction properties as [|q properties IH]; intros k Hp Hid Hcs.
  - by apply elem_of_nil in Hp.
  - simpl. apply elem_of_cons in Hp as [<- | Hp].
    + rewrite (proj2 (String.eqb_eq _ _) Hid).
      destruct (Property.comparables p) as [| |cs]; try done.
      by destruct (Hcs cs).
    + destruct (String.eqb (Property.id q) propId).
      * destruct (Property.comparables q); try done.
        by rewrite (IH (S k)).
      * by rewrite (IH k).
Qed.

End AddComparableEdges.

(** X6.  [addComparable] with an id that no property has sets the
    collection to itself: nothing is added anywhere and nothing is
    thrown, also when properties lack a comparables sequence. *)
Theorem addComparable_unknown_id (properties : list Property.t)
    (propId : string) (r : float) (ids : nat → string) :
  (∀ p, p ∈ properties → Property.id p ≠ propId) →
  addComparable properties propId r ids = [setProperties properties].
Proof.
  intros Hno. unfold addComparable.
  by rewrite addComparable_map_no_match.
Qed.

Lemma addComparable_unknown_id_witness :
  addComparable [listing (Val 100000%float) Undefined] "PROP-000000"
    0.5%float (λ _, "0.9f3kq2")
  = [setProperties [listing (Val 100000%float) Undefined]].
Proof.
  apply (addComparable_unknown_id [listing (Val 100000%float) Undefined]).
  intros p Hp. apply list_elem_of_singleton in Hp as ->. discriminate.
Defined.

(** X7.  When a property of the given id has no comparables sequence,
    [addComparable] throws before it sets anything: the state is left as
    it was, also for the properties of that id that come earlier in the
    collection and do have a sequence. *)
Theorem addComparable_throws_whole (properties : list Property.t)
    (propId : string) (r : float) (ids : nat → string) (p : Property.t) :
  p ∈ properties → Property.id p = propId →
  (∀ cs, Property.comparables p ≠ Val cs) →
  addComparable properties propId r ids = [throw_TypeError]
  ∧ ∀ st, run st (addComparable properties propId r ids) = st.
Proof.
  intros Hp Hid Hcs. unfold addComparable.
  rewrite (addComparable_map_throws _ _ _ _ _ p Hp Hid Hcs).
  split; [done |]. by intros [].
Qed.

Lemma addComparable_throws_whole_witness :
  addComparable [listing (Val 100000%float) (Val []);
                 listing (Val 100000%float) Null]
    "PROP-k3x9qa" 0.5%float (λ _, "0.9f3kq2")
  = [throw_TypeError].
Proof.
  apply (addComparable_throws_whole _ _ _ _ (listing (Val 100000%float) Null)).
  - right. left.
  - reflexivity.
  - discriminate.
Defined.

(** ** What assignment and comparables do to search and valuation *)

Section ReadersAndWriters.

Variable numberToString : float → string.

Lemma filter_map_commute {A B} (f : B → bool) (g : A → B) (l : list A) :
  List.filter f (List.map g l) = List.map g (List.filter (λ x, f (g x)) l).
Proof.
  induction l as [|x l IH]; simpl; [done |].
  rewrite IH. by destruct (f (g x)).
Qed.

Lemma filter_ext_in {A} (f g : A → bool) (l : list A) :
  (∀ x, x ∈ l → f x = g x) → List.filter f l = List.filter g l.
Proof.
  induction l as [|x l IH]; intros Hfg; simpl; [done |].
  rewrite (Hfg x) by (by left). rewrite IH; [done |].
  intros y Hy. apply Hfg. by right.
Qed.

Lemma matches_assign_one q propId userId p :
  matches q (assign_one propId userId p) = matches q p.
Proof. unfold assign_one. by destruct (String.eqb (Property.id p) propId). Qed.

Lemma valuation_assign_one propId userId p :
  mockAIValuation numberToString (assign_one propId userId p)
  = mockAIValuation numberToString p.
Proof. unfold assign_one. by destruct (String.eqb (Property.id p) propId). Qed.

Lemma search_assign query propId userId (properties : list Property.t) :
  mockElasticSearch query (List.map (assign_one propId userId) properties)
  = List.map (assign_one propId userId) (mockElasticSearch query properties).
Proof.
  unfold mockElasticSearch.
  destruct (negb (truthy_string (toLowerCase (trim query)))); [done |].
  rewrite filter_map_commute. f_equal. apply filter_ext_in.
  intros p _. apply matches_assign_one.
Qed.

Lemma grown_matches q p p' : grown p p' → matches q p' = matches q p.
Proof. by intros [-> | (cs & c & _ & ->)]. Qed.

Lemma addComparable_map_grown propId value ids k
    (properties next : list Property.t) :
  addComparable_map propId value ids k properties = Some next →
  Forall2 grown properties next.
Proof.
  revert k next. induction properties as [|p properties IH]; intros k next; simpl.
  - intros [= <-]. constructor.
  - destruct (String.eqb (Property.id p) propId).
    + destruct (Property.comparables p) as [| |cs] eqn:Hcs; try done.
      destruct (addComparable_map propId value ids (S k) properties)
        as [rest'|] eqn:Hrest; [| done].
      intros [= <-]. constructor; [| by eapply IH].
      right. by eexists _, _.
    + destruct (addComparable_map propId value ids k properties)
        as [rest'|] eqn:Hrest; [| done].
      intros [= <-]. constructor; [by left | by eapply IH].
Qed.

Lemma filter_Forall2 {A} (R : A → A → Prop) (f : A → bool) (l l' : list A) :
  (∀ x y, R x y → f y = f x) → Forall2 R l l' →
  Forall2 R (List.filter f l) (List.filter f l').
Proof.
  intros Hf. induction 1 as [|x y l l' Hxy _ IH]; simpl; [constructor |].
  rewrite (Hf x y Hxy). destruct (f x); [by constructor | done].
Qed.

End ReadersAndWriters.

(** X8.  Assignment is invisible to search and to valuation: on the
    collection that [assignToUser] sets, every query finds the same
    properties as before, in the same order, with the assignment applied,
    and every property is valued as before. *)
Theorem assignment_invisible_to_readers (numberToString : float → string)
    (properties : list Property.t) (propId : string) (userId : field string) :
  ∃ next,
    assignToUser properties propId userId = [setProperties next]
    ∧ (∀ query,
         mockElasticSearch query next
         = List.map (assign_one propId userId)
                    (mockElasticSearch query properties))
    ∧ List.map (mockAIValuation numberToString) next
      = List.map (mockAIValuation numberToString) properties.
Proof.
  eexists. split; [apply assignToUser_assign_one |]. split.
  - intros query. apply search_assign.
  - rewrite List.map_map. apply List.map_ext. intros p.
    apply valuation_assign_one.
Qed.

(** X9.  When [addComparable] sets a collection, every query finds the
    same cards as before, each one as it was or with its one new
    comparable; a property of the given id is from then on valued with
    confidence "medium", and a property of another id is the one that was
    there. *)
Theorem addComparable_seen_by_readers (numberToString : float → string)
    (properties next : list Property.t) (propId : string) (r : float)
    (ids : nat → string) :
  addComparable properties propId r ids = [setProperties next] →
  (∀ query,
     Forall2 grown (mockElasticSearch query properties)
                   (mockElasticSearch query next))
  ∧ (∀ i p', next !! i = Some p' → Property.id p' = propId →
       Valuation.confidence (mockAIValuation numberToString p') = "medium")
  ∧ (∀ i p', next !! i = Some p' → Property.id p' ≠ propId →
       properties !! i = Some p').
Proof.
  unfold addComparable.
  destruct (addComparable_map propId _ ids 0 properties) as [next0|] eqn:Hmap;
    [| done].
  intros [= <-].
  pose proof (addComparable_map_grown _ _ _ _ _ _ Hmap) as Hgrown.
  destruct (addComparable_map_lookup _ _ _ _ _ _ Hmap) as (Hlen & Hids & Hat).
  assert (∀ i p', next0 !! i = Some p' →
            ∃ p, properties !! i = Some p ∧ Property.id p = Property.id p')
    as Hback.
  { intros i p' Hp'.
    destruct (Forall2_lookup_r _ _ _ _ _ Hgrown Hp') as (p & Hp & Hg).
    exists p. split; [done |]. by destruct Hg as [-> | (cs & c & _ & ->)]. }
  split; [| split].
  - intros query. unfold mockElasticSearch.
    destruct (negb (truthy_string (toLowerCase (trim query)))); [done |].
    apply filter_Forall2; [| done]. intros p p'. apply grown_matches.
  - intros i p' Hp' Hid. destruct (Hback i p' Hp') as (p & Hp & Hpid).
    destruct (Hat i p Hp) as [_ Heq].
    destruct Heq as (cs & Hcs & Hnext); [congruence |].
    rewrite Hnext in Hp'. injection Hp' as <-.
    unfold mockAIValuation, valuation_comps. simpl. by destruct cs.
  - intros i p' Hp' Hid. destruct (Hback i p' Hp') as (p & Hp & Hpid).
    destruct (Hat i p Hp) as [Hne _].
    rewrite Hne in Hp' by congruence. congruence.
Qed.

Lemma addComparable_seen_by_readers_witness :
  Valuation.confidence
    (mockAIValuation integerToString
       (Property.with_comparables (listing (Val 100000%float) (Val []))
          (Val [Comparable.mk "C-9f3k" (Val 100000%float)])))
  = "medium".
Proof.
  destruct (addComparable_seen_by_readers integerToString
              [listing (Val 100000%float) (Val [])]
              [Property.with_comparables (listing (Val 100000%float) (Val []))
                 (Val [Comparable.mk "C-9f3k" (Val 100000%float)])]
              "PROP-k3x9qa" 0.5%float (λ _, "0.9f3kq2"))
    as (_ & Hmedium & _).
  - vm_compute. reflexivity.
  - apply (Hmedium 0); reflexivity.
Defined.

(** ** A property, once created *)

Section TrimFacts.

Implicit Types s q : string.

Lemma map_chars_append f s1 s2 :
  map_chars f (s1 +:+ s2) = map_chars f s1 +:+ map_chars f s2.
Proof. induction s1 as [|c s1 IH]; simpl; [done | by rewrite IH]. Qed.

Lemma trimStart_suffix s : ∃ pre, s = pre +:+ trimStart s.
Proof.
  induction s as [|c s [pre IH]]; simpl; [by exists "" |].
  destruct (is_white_space c).
  - exists (String c pre). exact (f_equal (String c) IH).
  - by exists "".
Qed.

Lemma trimEnd_prefix s : ∃ post, s = trimEnd s +:+ post.
Proof.
  induction s as [|c s [post IH]]; simpl; [by exists "" |].
  destruct (trimEnd s) as [|d t] eqn:Ht.
  - destruct (is_white_space c).
    + by exists (String c s).
    + exists s. done.
  - exists post. exact (f_equal (String c) IH).
Qed.

(** What [trim] leaves is a part of the string. *)
Lemma trim_is_substring s : is_substring (trim s) s.
Proof.
  unfold trim. destruct (trimStart_suffix s) as [pre Hpre].
  destruct (trimEnd_prefix (trimStart s)) as [post Hpost].
  exists pre, post. by rewrite <- Hpost.
Qed.

Lemma is_substring_map_chars f q s :
  is_substring q s → is_substring (map_chars f q) (map_chars f s).
Proof.
  intros (pre & post & ->). exists (map_chars f pre), (map_chars f post).
  by rewrite !map_chars_append.
Qed.

(** A text is found by the query that is that text. *)
Lemma includes_own_text s :
  includes (toLowerCase s) (toLowerCase (trim s)) = true.
Proof. apply includes_spec, is_substring_map_chars, trim_is_substring. Qed.

End TrimFacts.

(** X10.  A property just created is valued with confidence "low", on
    the base of its estimate; when the text of the estimate is not a
    number, or is zero, the base is 100000 and the valuation 70000. *)
Theorem created_property_valuation (Number : string → float)
    (numberToString : float → string) (properties : list Property.t)
    (title address estimatedValue assignedTo r36 now : string) :
  title ≠ "" →
  ∃ prop rest,
    createProperty Number properties title address estimatedValue assignedTo
      r36 now
    = setProperties (prop :: properties) :: rest
    ∧ valuation_base prop
      = (if truthy_number (Number estimatedValue)
         then Number estimatedValue else 100000%float)
    ∧ Valuation.confidence (mockAIValuation numberToString prop) = "low"
    ∧ (truthy_number (Number estimatedValue) = false →
       Valuation.valuation (mockAIValuation numberToString prop)
       = 70000%float).
Proof.
  intros Htitle. unfold createProperty.
  rewrite (truthy_string_true _ Htitle). cbn [negb].
  eexists _, _. split; [reflexivity |].
  unfold mockAIValuation, valuation_base, valuation_comps, number_or.
  cbn [Property.estimatedValue Property.comparables Valuation.confidence
       Valuation.valuation valuation_compAvg].
  destruct (truthy_number (Number estimatedValue)) eqn:Ht.
  - rewrite Ht. split; [done |]. split; done.
  - split; [done |]. split; [done |]. intros _. by vm_compute.
Qed.

Lemma created_property_valuation_witness :
  ∃ prop rest,
    createProperty digitsToNumber [] "Lake Lodge" "9 Shore Lane" "n/a" ""
      "0.b7t2wd5m2v" "2024-06-11T08:30:00.000Z"
    = setProperties [prop] :: rest
    ∧ Valuation.valuation (mockAIValuation integerToString prop) = 70000%float.
Proof.
  destruct (created_property_valuation digitsToNumber integerToString []
              "Lake Lodge" "9 Shore Lane" "n/a" ""
              "0.b7t2wd5m2v" "2024-06-11T08:30:00.000Z")
    as (prop & rest & Htrace & _ & _ & Hv).
  - discriminate.
  - exists prop, rest. split; [exact Htrace |]. apply Hv. reflexivity.
Defined.

(** X11.  A property just created is at once where its users look for
    it: it heads the assigned list of every user whose id is the text
    typed as assignee, and is in the list of no user with another id; the
    query that is its title finds it first, unless the title is white
    space only; and every query still finds what it found before. *)
Theorem created_property_is_listed (Number : string → float)
    (properties : list Property.t)
    (title address estimatedValue assignedTo r36 now : string) :
  title ≠ "" →
  ∃ prop rest,
    createProperty Number properties title address estimatedValue assignedTo
      r36 now
    = setProperties (prop :: properties) :: rest
    ∧ (∀ user,
         assigned user (prop :: properties)
         = if truthy_string assignedTo && String.eqb assignedTo (User.id user)
           then prop :: assigned user properties
           else assigned user properties)
    ∧ (¬ whitespace_only title →
       mockElasticSearch title (prop :: properties)
       = prop :: mockElasticSearch title properties)
    ∧ (∀ query,
         mockElasticSearch query properties
         `sublist_of` mockElasticSearch query (prop :: properties)).
Proof.
  intros Htitle. unfold createProperty.
  rewrite (truthy_string_true _ Htitle). cbn [negb].
  eexists _, _. split; [reflexivity |]. split; [| split].
  - intros user. unfold assigned. cbn [List.filter].
    unfold assigned_to at 1. cbn [Property.assignedTo].
    by destruct (truthy_string assignedTo).
  - intros Hw. unfold mockElasticSearch.
    destruct (truthy_string (toLowerCase (trim title))) eqn:Hq;
      [| by apply normalized_query_empty in Hq].
    cbn [negb List.filter].
    unfold matches at 1. cbn [Property.title string_and].
    by rewrite (truthy_string_true _ Htitle), includes_own_text.
  - intros query. unfold mockElasticSearch.
    destruct (negb (truthy_string (toLowerCase (trim query))));
      [by apply sublist_cons |].
    cbn [List.filter]. destruct (matches _ _); [by apply sublist_cons | done].
Qed.

Lemma created_property_is_listed_witness :
  ∃ prop rest,
    createProperty digitsToNumber [listing (Val 100000%float) (Val [])]
      "Lake Lodge" "9 Shore Lane" "85000" "USER-7hq2ab"
      "0.b7t2wd5m2v" "2024-06-11T08:30:00.000Z"
    = setProperties [prop; listing (Val 100000%float) (Val [])] :: rest
    ∧ assigned bob [prop; listing (Val 100000%float) (Val [])] = [prop].
Proof.
  destruct (created_property_is_listed digitsToNumber
              [listing (Val 100000%float) (Val [])]
              "Lake Lodge" "9 Shore Lane" "85000" "USER-7hq2ab"
              "0.b7t2wd5m2v" "2024-06-11T08:30:00.000Z")
    as (prop & rest & Htrace & Hassigned & _).
  - discriminate.
  - exists prop, rest. split; [exact Htrace |]. rewrite (Hassigned bob).
    reflexivity.
Defined.

(** ** Tokens *)

(** X12.  [acceptAndMint] puts one token, of the user for the property,
    before the tokens there were, which it keeps in their order, and saves
    the collection; users and properties are not touched.  The new token
    heads the list Your Tokens of that user and is in the list of no user
    with another phone. *)
Theorem mint_shows_in_your_tokens (user : User.t) (tokens : list Token.t)
    (prop : Property.t) (r36 now : string) :
  ∃ token rest,
    acceptAndMint user tokens prop r36 now = setTokens (token :: tokens) :: rest
    ∧ Token.owner token = user
    ∧ Token.propertyId token = Property.id prop
    ∧ Token.mintedAt token = now
    ∧ yourTokens user (token :: tokens) = token :: yourTokens user tokens
    ∧ (∀ other, User.phone other ≠ User.phone user →
         yourTokens other (token :: tokens) = yourTokens other tokens)
    ∧ (∀ st, let st' := run st (acceptAndMint user tokens prop r36 now) in
             App.tokens st' = token :: tokens
             ∧ App.storage st' !! STORAGE_KEYS.TOKENS
               = Some (StoredTokens (token :: tokens))
             ∧ App.users st' = App.users st
             ∧ App.properties st' = App.properties st
             ∧ App.user st' = App.user st).
Proof.
  eexists _, _. split; [reflexivity |].
  split; [done |]. split; [done |]. split; [done |]. split; [| split].
  - unfold yourTokens. simpl. by rewrite String.eqb_refl.
  - intros other Hne. unfold yourTokens. simpl.
    rewrite (proj2 (String.eqb_neq _ _)); [done | congruence].
  - intros []. cbn. split; [done |].
    split; [by rewrite insert_insert_eq, lookup_insert_eq | done].
Qed.

(** ** Search as an operation on queries *)

Section SearchAlgebra.

Implicit Types (s q : string) (c : ascii).

Lemma string_append_assoc s1 s2 s3 :
  (s1 +:+ s2) +:+ s3 = s1 +:+ (s2 +:+ s3).
Proof.
  induction s1 as [|c s1 IH]; [done |]. exact (f_equal (String c) IH).
Qed.

Lemma is_substring_trans q1 q2 s :
  is_substring q1 q2 → is_substring q2 s → is_substring q1 s.
Proof.
  intros (a & b & ->) (pre & post & ->).
  exists (pre +:+ a), (b +:+ post).
  by rewrite !string_append_assoc.
Qed.

Lemma text_contains_narrow q1 q2 (f : field string) :
  is_substring q1 q2 → text_contains q2 f → text_contains q1 f.
Proof.
  intros H12 (s & -> & Hs). exists s. split; [done |].
  by eapply is_substring_trans.
Qed.

Lemma search_match_narrow q1 q2 (p : Property.t) :
  is_substring q1 q2 → search_match q2 p → search_match q1 p.
Proof.
  intros H12 [H | [H | (o & Ho & H)]].
  - left. by eapply text_contains_narrow.
  - right; left. by eapply text_contains_narrow.
  - right; right. exists o. split; [done |]. by eapply is_substring_trans.
Qed.

Lemma filter_sublist_impl {A} (f g : A → bool) (l : list A) :
  (∀ x, f x = true → g x = true) →
  List.filter f l `sublist_of` List.filter g l.
Proof.
  intros Hfg. induction l as [|x l IH]; simpl; [done |].
  destruct (f x) eqn:Hf.
  - rewrite (Hfg x Hf). by constructor.
  - destruct (g x); [by constructor | done].
Qed.

Lemma filter_idem {A} (f : A → bool) (l : list A) :
  List.filter f (List.filter f l) = List.filter f l.
Proof.
  induction l as [|x l IH]; simpl; [done |].
  destruct (f x) eqn:Hf; simpl; [by rewrite Hf, IH | done].
Qed.

(** White space before or after is trimmed away. *)
Lemma trimStart_pad pad s :
  whitespace_only pad → trimStart (pad +:+ s) = trimStart s.
Proof.
  induction pad as [|c pad IH]; simpl; [done |].
  intros [Hc Hpad]. rewrite Hc. by apply IH.
Qed.

Lemma trimEnd_pad s pad :
  whitespace_only pad → trimEnd (s +:+ pad) = trimEnd s.
Proof.
  intros Hpad. induction s as [|c s IH].
  - by apply trimEnd_empty.
  - change (String c s +:+ pad) with (String c (s +:+ pad)).
    cbn [trimEnd]. by rewrite IH.
Qed.

Lemma trim_pad pad1 s pad2 :
  whitespace_only pad1 → whitespace_only pad2 →
  trim (pad1 +:+ s +:+ pad2) = trim s.
Proof.
  intros H1 H2. unfold trim. rewrite trimStart_pad by done.
  induction s as [|c s IH].
  - change ("" +:+ pad2) with pad2. by apply trim_empty.
  - change (String c s +:+ pad2) with (String c (s +:+ pad2)).
    cbn [trimStart]. destruct (is_white_space c); [done |].
    change (String c (s +:+ pad2)) with (String c s +:+ pad2).
    by apply trimEnd_pad.
Qed.

(** Changing the case of letters makes and unmakes no white space. *)
Lemma is_white_space_upper c : is_white_space (upper_char c) = is_white_space c.
Proof. by destruct c as [[] [] [] [] [] [] [] []]. Qed.

Lemma lower_upper c : lower_char (upper_char c) = lower_char c.
Proof. by destruct c as [[] [] [] [] [] [] [] []]. Qed.

Lemma trimStart_map_chars (f : ascii → ascii) s :
  (∀ c, is_white_space (f c) = is_white_space c) →
  trimStart (map_chars f s) = map_chars f (trimStart s).
Proof.
  intros Hf. induction s as [|c s IH]; simpl; [done |].
  rewrite Hf. by destruct (is_white_space c).
Qed.

Lemma trimEnd_map_chars (f : ascii → ascii) s :
  (∀ c, is_white_space (f c) = is_white_space c) →
  trimEnd (map_chars f s) = map_chars f (trimEnd s).
Proof.
  intros Hf. induction s as [|c s IH]; simpl; [done |].
  rewrite IH, Hf. destruct (trimEnd s); simpl; [| done].
  by destruct (is_white_space c).
Qed.

Lemma toLowerCase_trim_toUpperCase s :
  toLowerCase (trim (toUpperCase s)) = toLowerCase (trim s).
Proof.
  unfold trim, toUpperCase.
  rewrite trimStart_map_chars, trimEnd_map_chars by apply is_white_space_upper.
  unfold toLowerCase. induction (trimEnd (trimStart s)) as [|c t IH]; simpl;
    [done |].
  by rewrite lower_upper, IH.
Qed.

End SearchAlgebra.

(** X13.  Searching within the results of a query, with the same
    query, gives those results again. *)
Theorem search_idempotent (query : string) (properties : list Property.t) :
  mockElasticSearch query (mockElasticSearch query properties)
  = mockElasticSearch query properties.
Proof.
  unfold mockElasticSearch.
  destruct (negb (truthy_string (toLowerCase (trim query)))); [done |].
  apply filter_idem.
Qed.

(** X14.  A longer query can only narrow the results: when one query,
    trimmed and lower-cased, occurs in another, what the other finds is
    among what the first finds, in the same order. *)
Theorem search_narrows (query1 query2 : string) (properties : list Property.t) :
  is_substring (toLowerCase (trim query1)) (toLowerCase (trim query2)) →
  mockElasticSearch query2 properties
  `sublist_of` mockElasticSearch query1 properties.
Proof.
  intros H12. unfold mockElasticSearch.
  destruct (truthy_string (toLowerCase (trim query1))) eqn:H1; cbn [negb].
  - destruct (truthy_string (toLowerCase (trim query2))) eqn:H2; cbn [negb].
    + apply filter_sublist_impl. intros p Hp.
      assert (toLowerCase (trim query1) ≠ "") as Hne1
        by (intros He; by rewrite He in H1).
      assert (toLowerCase (trim query2) ≠ "") as Hne2
        by (intros He; by rewrite He in H2).
      apply matches_spec; [done |]. apply matches_spec in Hp; [| done].
      by eapply search_match_narrow.
    + apply truthy_string_false in H2. rewrite H2 in H12.
      apply is_substring_empty in H12. by rewrite H12 in H1.
  - destruct (negb (truthy_string (toLowerCase (trim query2)))); [done |].
    apply filter_sublist.
Qed.

Lemma search_narrows_witness :
  mockElasticSearch "Hill Ho" [listing (Val 100000%float) (Val [])]
  `sublist_of` mockElasticSearch " hill" [listing (Val 100000%float) (Val [])].
Proof.
  apply (search_narrows " hill" "Hill Ho").
  exists "", " ho". reflexivity.
Defined.

(** X15.  For a query of ASCII characters, neither the case of its
    letters nor white space around it changes what is found.  (Outside
    ASCII the engine has letters whose upper case is longer, which is why
    the query is so confined.) *)
Theorem search_ignores_case_and_padding (query pad1 pad2 : string)
    (properties : list Property.t) :
  all_chars is_ascii query = true →
  whitespace_only pad1 → whitespace_only pad2 →
  mockElasticSearch (pad1 +:+ toUpperCase query +:+ pad2) properties
  = mockElasticSearch query properties.
Proof.
  intros _ H1 H2. unfold mockElasticSearch.
  by rewrite trim_pad, toLowerCase_trim_toUpperCase.
Qed.

Lemma search_ignores_case_and_padding_witness :
  mockElasticSearch ("  " +:+ toUpperCase "hill" +:+ " ")
                    [listing (Val 100000%float) (Val [])]
  = mockElasticSearch "hill" [listing (Val 100000%float) (Val [])].
Proof.
  apply (search_ignores_case_and_padding "hill" "  " " ").
  - reflexivity.
  - simpl. repeat split.
  - simpl. repeat split.
Defined.

(** ** The storage helpers *)

Section StorageHelpers.

(** [JSON.stringify] never gives the empty text, which [load] would take
    for nothing stored. *)
Lemma stringify_truthy (j : json) : truthy_string (stringify j) = true.
Proof.
  destruct j as [|[]|n|s|l|l]; try done.
  simpl. destruct (Z.to_int n) as [d|d]; [| done].
  by destruct d.
Qed.

End StorageHelpers.

(** X16.  What [save] stored under a key, [load] gives back, provided
    the engine reads back the text it wrote; the other keys are as they
    were, and a second [save] under the key replaces the first.  [load]
    gives the fallback when the key was never set and when the text under
    it does not parse. *)
Theorem load_after_save (JSON_parse : string → option json)
    (store : gmap string string) (key : string) (data fallback : json) :
  (JSON_parse (stringify data) = Some data →
   Helpers.load JSON_parse (Helpers.save store key data) key fallback = data)
  ∧ (∀ key', key' ≠ key →
       Helpers.load JSON_parse (Helpers.save store key data) key' fallback
       = Helpers.load JSON_parse store key' fallback)
  ∧ (∀ data0,
       Helpers.save (Helpers.save store key data0) key data
       = Helpers.save store key data)
  ∧ (store !! key = None → Helpers.load JSON_parse store key fallback = fallback)
  ∧ (∀ raw, store !! key = Some raw → JSON_parse raw = None →
       Helpers.load JSON_parse store key fallback = fallback).
Proof.
  unfold Helpers.load, Helpers.save. split; [| split; [| split; [| split]]].
  - intros Hparse. by rewrite lookup_insert_eq, stringify_truthy, Hparse.
  - intros key' Hne. by rewrite lookup_insert_ne.
  - intros data0. apply insert_insert_eq.
  - by intros ->.
  - intros raw -> ->. by destruct (truthy_string raw).
Qed.

Lemma load_after_save_witness :
  Helpers.load parse_literal
    (Helpers.save ∅ STORAGE_KEYS.USERS (JBool true)) STORAGE_KEYS.USERS (JArr [])
  = JBool true.
Proof.
  destruct (load_after_save parse_literal ∅ STORAGE_KEYS.USERS (JBool true)
              (JArr [])) as (Hback & _).
  apply Hback. reflexivity.
Defined.

(** ** The machine keeps its invariants *)

Section Invariants.

Variables (Number : string → float) (numberToString : float → string).

Implicit Types (st : App.State) (u user : User.t) (p : Property.t)
  (t : Token.t) (a : action).

Lemma users_ok_snoc (users : list User.t) (id name phone : string) :
  users_ok users → name ≠ "" → phone ≠ "" →
  (∀ u, u ∈ users → User.phone u ≠ phone) →
  users_ok (users ++ [User.mk id name phone]).
Proof.
  intros [Hnd Hall] Hname Hphone Hnew. split.
  - change (List.map ?f ?l) with (f <$> l). rewrite fmap_app.
    apply NoDup_app. split; [done |]. split; [| apply NoDup_singleton].
    intros x Hx Hx'. apply list_elem_of_singleton in Hx' as ->.
    apply list_elem_of_fmap in Hx as (v & Hv & Hin). by apply (Hnew v Hin).
  - apply Forall_app. split; [done |]. by apply Forall_singleton.
Qed.

Lemma token_ok_mono (users users' : list User.t)
    (properties properties' : list Property.t) t :
  (∀ u, u ∈ users → u ∈ users') →
  (∀ i, i ∈ List.map Property.id properties →
        i ∈ List.map Property.id properties') →
  token_ok users properties t → token_ok users' properties' t.
Proof. intros Hu Hp (? & ? & ?). split; [auto | split; auto]. Qed.

(** The invariant reads the session, the collections and the storage,
    and nothing else of the state. *)
Lemma state_ok_ext st st' :
  App.user st' = App.user st → App.users st' = App.users st →
  App.properties st' = App.properties st → App.tokens st' = App.tokens st →
  App.storage st' = App.storage st →
  state_ok st → state_ok st'.
Proof.
  unfold state_ok, session_ok, in_sync.
  by intros -> -> -> -> ->.
Qed.

Lemma state_ok_alert st title message :
  state_ok st → state_ok (run st [Alert_alert title message]).
Proof. apply state_ok_ext; by destruct st. Qed.

Lemma state_ok_onLogout st : state_ok st → state_ok (onLogout st).
Proof.
  intros (Hus & _ & Hps & Hts & Hsync & Hadm).
  split; [done |]. split; [by left |]. done.
Qed.

Lemma state_ok_onLogin st u :
  u ∈ App.users st → state_ok st → state_ok (run st [onLogin u]).
Proof.
  intros Hu (Hus & _ & Hps & Hts & Hsync & Hadm). destruct st.
  split; [done |]. split; [right; by exists u |]. done.
Qed.

Lemma in_sync_insert_users st next :
  in_sync st →
  in_sync (App.mk (App.user st) next (App.properties st) (App.tokens st)
             (App.screen st) (App.title st) (App.address st)
             (App.estimatedValue st) (App.assignedTo st)
             (<[STORAGE_KEYS.USERS := StoredUsers next]> (App.storage st))
             (App.alerts st)).
Proof.
  intros (Hu & Hp & Ht & Ho). unfold in_sync. cbn [App.storage App.users
    App.properties App.tokens]. split; [| split; [| split]].
  - intros data. rewrite lookup_insert_eq. congruence.
  - intros data. rewrite lookup_insert_ne by done. apply Hp.
  - intros data. rewrite lookup_insert_ne by done. apply Ht.
  - intros key H1 H2 H3. rewrite lookup_insert_ne by done. by apply Ho.
Qed.

Lemma in_sync_insert_properties st next :
  in_sync st →
  in_sync (App.mk (App.user st) (App.users st) next (App.tokens st)
             (App.screen st) (App.title st) (App.address st)
             (App.estimatedValue st) (App.assignedTo st)
             (<[STORAGE_KEYS.PROPERTIES := StoredProperties next]>
                (App.storage st))
             (App.alerts st)).
Proof.
  intros (Hu & Hp & Ht & Ho). unfold in_sync. cbn [App.storage App.users
    App.properties App.tokens]. split; [| split; [| split]].
  - intros data. rewrite lookup_insert_ne by done. apply Hu.
  - intros data. rewrite lookup_insert_eq. congruence.
  - intros data. rewrite lookup_insert_ne by done. apply Ht.
  - intros key H1 H2 H3. rewrite lookup_insert_ne by done. by apply Ho.
Qed.

Lemma in_sync_insert_tokens st next :
  in_sync st →
  in_sync (App.mk (App.user st) (App.users st) (App.properties st) next
             (App.screen st) (App.title st) (App.address st)
             (App.estimatedValue st) (App.assignedTo st)
             (<[STORAGE_KEYS.TOKENS := StoredTokens next]> (App.storage st))
             (App.alerts st)).
Proof.
  intros (Hu & Hp & Ht & Ho). unfold in_sync. cbn [App.storage App.users
    App.properties App.tokens]. split; [| split; [| split]].
  - intros data. rewrite lookup_insert_ne by done. apply Hu.
  - intros data. rewrite lookup_insert_ne by done. apply Hp.
  - intros data. rewrite lookup_insert_eq. congruence.
  - intros key H1 H2 H3. rewrite lookup_insert_ne by done. by apply Ho.
Qed.

(** Setting the properties to a collection of well-formed properties with
    the ids of the old ones, or more, keeps the invariant. *)
Lemma state_ok_setProperties st next (rest : list effect) :
  state_ok st →
  Forall property_ok next →
  (∀ i, i ∈ List.map Property.id (App.properties st) →
        i ∈ List.map Property.id next) →
  (next ≠ [] → ∃ u, u ∈ App.users st ∧ isAdmin (Val u) = true) →
  (∀ st', state_ok st' → state_ok (run st' rest)) →
  state_ok (run st (setProperties next :: rest)).
Proof.
  intros (Hus & Hsess & Hps & Hts & Hsync & Hadm) Hnext Hids Hadmin Hrest.
  unfold run. cbn [fold_left]. apply Hrest.
  destruct st as [u us ps ts sc ti ad ev at_ sto al]. cbn [run1].
  split; [done |]. split; [done |]. split; [done |]. split.
  - eapply Forall_impl; [exact Hts |]. intros t. by apply token_ok_mono.
  - split; [| done].
    apply (in_sync_insert_properties
             (App.mk u us ps ts sc ti ad ev at_ sto al) next Hsync).
Qed.

Lemma state_ok_form st (trace : list effect) :
  Forall (λ e, match e with
               | setTitle _ | setAddress _ | setEstimatedValue _
               | setAssignedTo _ => True
               | _ => False
               end) trace →
  state_ok st → state_ok (run st trace).
Proof.
  intros Htrace. revert st. induction Htrace as [|e trace He _ IH]; intros st;
    [done |].
  intros Hst. unfold run. cbn [fold_left]. apply IH.
  revert Hst. apply state_ok_ext; by destruct st, e.
Qed.

(** [Number(text)||0] is never NaN. *)
Lemma number_or_zero_not_nan (x : float) :
  is_nan (number_or (Val x) 0%float) = false.
Proof.
  unfold number_or, truthy_number.
  destruct (PrimFloat.eqb x 0); simpl; [done |].
  by destruct (is_nan x) eqn:Hx.
Qed.

Lemma first_user_id_defined (users : list User.t) :
  first_user_id users ≠ Undefined.
Proof.
  destruct users as [|u users]; simpl; [done |].
  by destruct (truthy_string (User.id u)).
Qed.

Lemma property_ok_assign_one propId (userId : field string) p :
  userId ≠ Undefined → property_ok p →
  property_ok (assign_one propId userId p).
Proof.
  intros Hid Hp. unfold assign_one.
  destruct (String.eqb (Property.id p) propId); [| done].
  destruct Hp as (Ht & Ha & He & Hc & _ & Hm). by repeat split.
Qed.

Lemma addComparable_map_property_ok propId (value : float) ids k
    (properties next : list Property.t) :
  addComparable_map propId value ids k properties = Some next →
  Forall property_ok properties → Forall property_ok next.
Proof.
  revert k next. induction properties as [|p properties IH]; intros k next; simpl.
  - by intros [= <-].
  - intros Hmap [Hp Hps]%Forall_cons.
    destruct (String.eqb (Property.id p) propId).
    + destruct (Property.comparables p) as [| |cs] eqn:Hcs; try done.
      destruct (addComparable_map propId value ids (S k) properties)
        as [rest'|] eqn:Hrest; [| done].
      injection Hmap as <-. constructor; [| by eapply IH].
      destruct Hp as (Ht & Ha & He & (cs' & Hcs' & Hvals) & Hassigned & Hm).
      rewrite Hcs in Hcs'. injection Hcs' as <-.
      split; [done |]. split; [done |]. split; [done |].
      split; [| done]. eexists. split; [reflexivity |].
      apply Forall_app. split; [done |]. apply Forall_singleton. by eexists.
    + destruct (addComparable_map propId value ids k properties)
        as [rest'|] eqn:Hrest; [| done].
      injection Hmap as <-. constructor; [done | by eapply IH].
Qed.

Lemma property_ok_has_comparables (properties : list Property.t) propId :
  Forall property_ok properties →
  ∀ p, p ∈ properties → Property.id p = propId →
       ∃ cs, Property.comparables p = Val cs.
Proof.
  intros Hall p Hp _. rewrite Forall_forall in Hall.
  destruct (Hall p Hp) as (_ & _ & _ & (cs & Hcs & _) & _). by exists cs.
Qed.

Lemma state_ok_signupOrLogin st name phone r36 :
  state_ok st →
  state_ok (run st (signupOrLogin (App.users st) name phone r36)).
Proof.
  intros Hst. unfold signupOrLogin.
  destruct (truthy_string name) eqn:Hname; cbn [negb orb];
    [| by apply state_ok_alert].
  destruct (truthy_string phone) eqn:Hphone; cbn [negb orb];
    [| by apply state_ok_alert].
  destruct (List.find _ (App.users st)) as [found|] eqn:Hfind.
  - destruct (negb _); [by apply state_ok_alert |].
    apply state_ok_onLogin; [| done]. by apply find_phone_some in Hfind as [? _].
  - destruct Hst as (Hus & Hsess & Hps & Hts & Hsync & Hadm).
    destruct st as [u us ps ts sc ti ad ev at_ sto al]. cbn in Hus, Hfind |- *.
    rewrite insert_insert_eq.
    split; [| split; [| split; [| split; [| split]]]].
    + apply users_ok_snoc; [done | | |].
      * intros ->. discriminate.
      * intros ->. discriminate.
      * by apply find_phone_none_inv.
    + right. eexists. split; [reflexivity |].
      apply elem_of_app. right. by left.
    + done.
    + eapply Forall_impl; [exact Hts |]. intros t.
      apply token_ok_mono; [| done]. intros v Hv. apply elem_of_app. by left.
    + apply (in_sync_insert_users (App.mk u us ps ts sc ti ad ev at_ sto al) _
               Hsync).
    + intros Hne. destruct (Hadm Hne) as (v & Hv & Hva). exists v.
      split; [| done]. apply elem_of_app. by left.
Qed.

Lemma session_user_registered st user :
  state_ok st → App.user st = Val user → user ∈ App.users st.
Proof.
  intros (_ & [Hnull | (u & Hu & Hin)] & _) Huser; [congruence |].
  rewrite Hu in Huser. by injection Huser as <-.
Qed.

Lemma state_ok_AdminDashboard st user a :
  state_ok st → App.user st = Val user → isAdmin (Val user) = true →
  state_ok (run st (AdminDashboard_handle Number st a)).
Proof.
  intros Hst Huser Hadmin.
  pose proof (session_user_registered st user Hst Huser) as Hreg.
  pose proof Hst as (Hus & Hsess & Hps & Hts & Hsync & Hadm).
  destruct a; cbn [AdminDashboard_handle]; try done.
  - apply state_ok_form; [| done]. by repeat constructor.
  - apply state_ok_form; [| done]. by repeat constructor.
  - apply state_ok_form; [| done]. by repeat constructor.
  - apply state_ok_form; [| done]. by repeat constructor.
  - unfold createProperty.
    destruct (truthy_string (App.title st)) eqn:Htitle; cbn [negb];
      [| by apply state_ok_alert].
    apply state_ok_setProperties; [done | | | |].
    + constructor; [| done]. split; [| split; [| split; [| split; [| split]]]];
        cbn.
      * eexists. split; [reflexivity |]. intros He. by rewrite He in Htitle.
      * by eexists.
      * eexists. split; [reflexivity |]. apply number_or_zero_not_nan.
      * eexists. split; [reflexivity |]. constructor.
      * by destruct (truthy_string (App.assignedTo st)).
      * done.
    + intros i Hi. by right.
    + intros _. by exists user.
    + intros st'. apply state_ok_form. by repeat constructor.
  - destruct (App.properties st !! i) as [p|] eqn:Hp; [| done].
    unfold addComparable.
    destruct (addComparable_map_total (Property.id p)
                (Math_round (r * 100000 + 50000)) ids 0 (App.properties st))
      as [next Hnext]; [by apply property_ok_has_comparables |].
    rewrite Hnext.
    destruct (addComparable_map_lookup _ _ _ _ _ _ Hnext) as (_ & Hids & _).
    apply state_ok_setProperties; [done | | | | done].
    + by eapply addComparable_map_property_ok.
    + by rewrite Hids.
    + intros _. by exists user.
  - destruct (App.properties st !! i) as [p|] eqn:Hp; [| done].
    rewrite assignToUser_assign_one.
    apply state_ok_setProperties; [done | | | | done].
    + apply Forall_forall. intros q Hq%list_elem_of_In%in_map_iff.
      destruct Hq as (q0 & <- & Hq0%list_elem_of_In).
      apply property_ok_assign_one; [apply first_user_id_defined |].
      by apply (proj1 (Forall_forall _ _) Hps).
    + intros j Hj. rewrite List.map_map.
      erewrite List.map_ext; [exact Hj |].
      intros q. unfold assign_one.
      by destruct (String.eqb (Property.id q) (Property.id p)).
    + intros _. by exists user.
Qed.

Lemma state_ok_UserDashboard st user a :
  state_ok st → App.user st = Val user → isAdmin (Val user) = false →
  state_ok (run st (UserDashboard_handle numberToString user st a)).
Proof.
  intros Hst Huser Hadmin.
  pose proof (session_user_registered st user Hst Huser) as Hreg.
  destruct a; cbn [UserDashboard_handle]; try done.
  - destruct (App.properties st !! i) as [p|] eqn:Hp; [| done].
    by apply state_ok_alert.
  - destruct (App.properties st !! i) as [p|] eqn:Hp; [| done].
    destruct Hst as (Hus & Hsess & Hps & Hts & Hsync & Hadm).
    destruct st as [u us ps ts sc ti ad ev at_ sto al]. cbn in Hp, Hreg |- *.
    rewrite insert_insert_eq.
    split; [done |]. split; [done |]. split; [done |]. split; [| split].
    + constructor; [| done]. split; [done |]. split; [done |]. cbn.
      apply list_elem_of_In, in_map, list_elem_of_In.
      by eapply list_elem_of_lookup_2.
    + apply (in_sync_insert_tokens (App.mk u us ps ts sc ti ad ev at_ sto al) _
               Hsync).
    + done.
Qed.

(** One action keeps the invariant. *)
Lemma state_ok_step st a :
  state_ok st → state_ok (step Number numberToString st a).
Proof.
  intros Hst. unfold step. destruct (App.user st) as [| |user] eqn:Huser.
  - destruct a; cbn [Login_handle]; try done. by apply state_ok_signupOrLogin.
  - destruct a; cbn [Login_handle]; try done. by apply state_ok_signupOrLogin.
  - destruct (isAdmin (Val user)) eqn:Hadmin.
    + destruct a; try (by eapply state_ok_AdminDashboard).
      by apply state_ok_onLogout.
    + destruct a; try (by eapply state_ok_UserDashboard).
      by apply state_ok_onLogout.
Qed.

Lemma state_ok_initial : state_ok App.initial.
Proof.
  split; [split; constructor |]. split; [by left |].
  split; [constructor |]. split; [constructor |]. split; [| done].
  by repeat split.
Qed.

Lemma state_ok_steps st (actions : list action) :
  state_ok st → state_ok (fold_left (step Number numberToString) actions st).
Proof.
  revert st. induction actions as [|a actions IH]; intros st Hst; [done |].
  simpl. by apply IH, state_ok_step.
Qed.

(** Every state of a session has the invariant. *)
Lemma state_ok_session (actions : list action) :
  state_ok (session Number numberToString actions).
Proof. apply state_ok_steps, state_ok_initial. Qed.

(** What each screen can change. *)

Lemma Login_changes st a :
  let st' := run st (Login_handle st a) in
  App.users st `prefix_of` App.users st'
  ∧ App.properties st' = App.properties st
  ∧ App.tokens st' = App.tokens st.
Proof.
  cbv zeta. destruct a; cbn [Login_handle]; try done.
  unfold signupOrLogin.
  destruct (negb (truthy_string name) || negb (truthy_string phone));
    [by destruct st |].
  destruct (List.find _ (App.users st)) as [found|].
  - destruct (negb _); by destruct st.
  - destruct st. cbn. split; [by apply prefix_app_r | done].
Qed.

Lemma AdminDashboard_changes st a :
  let st' := run st (AdminDashboard_handle Number st a) in
  App.users st' = App.users st
  ∧ App.tokens st' = App.tokens st
  ∧ App.user st' = App.user st
  ∧ List.map Property.id (App.properties st)
    `suffix_of` List.map Property.id (App.properties st').
Proof.
  cbv zeta. destruct a; cbn [AdminDashboard_handle]; try done;
    try (by destruct st).
  - unfold createProperty. destruct (negb (truthy_string (App.title st)));
      [by destruct st |].
    destruct st. cbn. repeat split; try done. by apply suffix_cons_r.
  - destruct (App.properties st !! i) as [p|]; [| done]. unfold addComparable.
    destruct (addComparable_map _ _ ids 0 (App.properties st))
      as [next|] eqn:Hnext; [| by destruct st].
    destruct (addComparable_map_lookup _ _ _ _ _ _ Hnext) as (_ & Hids & _).
    destruct st. cbn in *. by rewrite Hids.
  - destruct (App.properties st !! i) as [p|]; [| done].
    rewrite assignToUser_assign_one. destruct st. cbn.
    repeat split; try done. rewrite List.map_map.
    erewrite List.map_ext; [done |]. intros q. unfold assign_one.
    by destruct (String.eqb (Property.id q) (Property.id p)).
Qed.

Lemma UserDashboard_changes st user a :
  let st' := run st (UserDashboard_handle numberToString user st a) in
  App.users st' = App.users st
  ∧ App.properties st' = App.properties st
  ∧ App.user st' = App.user st
  ∧ App.tokens st `suffix_of` App.tokens st'.
Proof.
  cbv zeta. destruct a; cbn [UserDashboard_handle]; try done.
  - destruct (App.properties st !! i) as [p|]; [| done]. by destruct st.
  - destruct (App.properties st !! i) as [p|]; [| done]. destruct st. cbn.
    repeat split; try done. by apply suffix_cons_r.
Qed.

End Invariants.

(** ** What holds in every session *)

(** X17.  In every state that a sequence of actions reaches from the
    first launch, no two users have the same phone, no user lacks a name
    or a phone, and whoever is logged in is a user of the collection. *)
Theorem session_users_wellformed (Number : string → float)
    (numberToString : float → string) (actions : list action) :
  let st := session Number numberToString actions in
  NoDup (List.map User.phone (App.users st))
  ∧ (∀ u, u ∈ App.users st → User.name u ≠ "" ∧ User.phone u ≠ "")
  ∧ (∀ user, App.user st = Val user → user ∈ App.users st)
  ∧ App.user st ≠ Undefined.
Proof.
  cbv zeta.
  pose proof (state_ok_session Number numberToString actions) as Hst.
  pose proof Hst as ([Hnd Hall] & Hsess & _).
  split; [done |]. split; [by apply Forall_forall |].
  split; [intros user; by apply session_user_registered |].
  destruct Hsess as [-> | (u & -> & _)]; done.
Qed.

(** X18.  In every such state each property has a title that is not
    empty, an estimate that is a number and not NaN, a comparables
    sequence whose entries all have a value, and the metadata of an
    upload; so the Add Comparable button never throws: it always sets a
    collection. *)
Theorem session_properties_wellformed (Number : string → float)
    (numberToString : float → string) (actions : list action) :
  let st := session Number numberToString actions in
  Forall property_ok (App.properties st)
  ∧ ∀ i p r ids, App.properties st !! i = Some p →
      ∃ next,
        addComparable (App.properties st) (Property.id p) r ids
        = [setProperties next].
Proof.
  cbv zeta.
  pose proof (state_ok_session Number numberToString actions)
    as (_ & _ & Hps & _).
  split; [done |]. intros i p r ids Hp. unfold addComparable.
  destruct (addComparable_map_total (Property.id p)
              (Math_round (r * 100000 + 50000)) ids 0
              (App.properties (session Number numberToString actions)))
    as [next ->]; [by apply property_ok_has_comparables | by exists next].
Qed.

(** X19.  In every such state each token belongs to a user of the
    collection who is no administrator, and is for a property of the
    collection. *)
Theorem session_tokens_wellformed (Number : string → float)
    (numberToString : float → string) (actions : list action) :
  let st := session Number numberToString actions in
  Forall (λ t,
            Token.owner t ∈ App.users st
            ∧ isAdmin (Val (Token.owner t)) = false
            ∧ ∃ p, p ∈ App.properties st ∧ Property.id p = Token.propertyId t)
         (App.tokens st).
Proof.
  cbv zeta.
  pose proof (state_ok_session Number numberToString actions)
    as (_ & _ & _ & Hts & _).
  eapply Forall_impl; [exact Hts |]. intros t (Ho & Ha & Hp).
  split; [done |]. split; [done |].
  apply list_elem_of_In, in_map_iff in Hp as (p & Hid & Hin).
  exists p. split; [by apply list_elem_of_In | done].
Qed.


(** X21.  Properties need an administrator, and tokens need properties:
    in every such state, if there is a property then some user of the
    collection has a name that is 'admin' up to letter case, and if there
    is a token then there is a property. *)
Theorem session_properties_need_admin (Number : string → float)
    (numberToString : float → string) (actions : list action) :
  let st := session Number numberToString actions in
  (App.properties st ≠ [] →
   ∃ u, u ∈ App.users st ∧ toLowerCase (User.name u) = "admin")
  ∧ (App.tokens st ≠ [] → App.properties st ≠ []).
Proof.
  cbv zeta.
  pose proof (state_ok_session Number numberToString actions)
    as (_ & _ & _ & Hts & _ & Hadm).
  split.
  - intros Hne. destruct (Hadm Hne) as (u & Hu & Ha). exists u.
    split; [done |]. rewrite isAdmin_name in Ha. by apply String.eqb_eq.
  - intros Hne Hps. rewrite Hps in Hts.
    destruct (App.tokens _) as [|t ts]; [done |].
    apply Forall_cons in Hts as [(_ & _ & Hp) _]. by apply elem_of_nil in Hp.
Qed.

(** X22.  What an action can change depends on the screen.  On the
    login screen no action changes a property or a token; on the user's
    dashboard none changes a property or a user; on the administrator's
    dashboard none changes a token or a user. *)
Theorem screens_confine_changes (Number : string → float)
    (numberToString : float → string) (st : App.State) (a : action) :
  let st' := step Number numberToString st a in
  match App_render st with
  | Component.Login =>
      App.properties st' = App.properties st ∧ App.tokens st' = App.tokens st
  | Component.UserDashboard =>
      App.properties st' = App.properties st ∧ App.users st' = App.users st
  | Component.AdminDashboard =>
      App.tokens st' = App.tokens st ∧ App.users st' = App.users st
  end.
Proof.
  cbv zeta. unfold App_render, step.
  destruct (App.user st) as [| |user] eqn:Huser.
  - by destruct (Login_changes st a) as (_ & ? & ?).
  - by destruct (Login_changes st a) as (_ & ? & ?).
  - destruct (isAdmin (Val user)).
    + destruct (AdminDashboard_changes Number st a) as (? & ? & _).
      by destruct a.
    + destruct (UserDashboard_changes numberToString st user a) as (? & ? & _).
      by destruct a.
Qed.

(** X23.  Nothing is ever deleted.  After any action the users there
    were are the first users of the collection, unchanged; the tokens
    there were are the last tokens, unchanged; and the ids of the
    properties there were are the last ids, in the same order. *)
Theorem nothing_is_deleted (Number : string → float)
    (numberToString : float → string) (st : App.State) (a : action) :
  let st' := step Number numberToString st a in
  App.users st `prefix_of` App.users st'
  ∧ App.tokens st `suffix_of` App.tokens st'
  ∧ List.map Property.id (App.properties st)
    `suffix_of` List.map Property.id (App.properties st').
Proof.
  cbv zeta. unfold step.
  destruct (App.user st) as [| |user] eqn:Huser.
  - by destruct (Login_changes st a) as (? & -> & ->).
  - by destruct (Login_changes st a) as (? & -> & ->).
  - destruct (isAdmin (Val user)).
    + destruct (AdminDashboard_changes Number st a) as (Hu & Ht & _ & Hp).
      destruct a; try (by rewrite Hu, Ht). done.
    + destruct (UserDashboard_changes numberToString st user a)
        as (Hu & Hp & _ & Ht).
      destruct a; try (by rewrite Hu, Hp). done.
Qed.

(** X24.  In every session, a user who logs out and then enters the
    same name and phone is logged in again as the same user, on the same
    dashboard, with the three collections as they were. *)
Theorem logout_then_login (Number : string → float)
    (numberToString : float → string) (actions : list action)
    (user : User.t) (r36 : string) :
  let st := session Number numberToString actions in
  App.user st = Val user →
  let st' :=
    step Number numberToString (step Number numberToString st PressLogout)
      (PressContinue (User.name user) (User.phone user) r36) in
  App.user st' = Val user
  ∧ App_render st' = App_render st
  ∧ App.users st' = App.users st
  ∧ App.properties st' = App.properties st
  ∧ App.tokens st' = App.tokens st.
Proof.
  cbv zeta. intros Huser.
  pose proof (state_ok_session Number numberToString actions) as Hst.
  pose proof (session_user_registered _ _ Hst Huser) as Hreg.
  destruct Hst as ([Hnd Hall] & _).
  rewrite Forall_forall in Hall. destruct (Hall user Hreg) as [Hname Hphone].
  pose proof (find_phone_unique _ _ _ Hnd Hreg eq_refl) as Hfind.
  assert (signupOrLogin (App.users (session Number numberToString actions))
            (User.name user) (User.phone user) r36 = [onLogin user]) as Hlogin.
  { unfold signupOrLogin.
    by rewrite !truthy_string_true, Hfind, String.eqb_refl by done. }
  generalize dependent (session Number numberToString actions).
  intros st Huser _ _ _ _ Hlogin.
  assert (step Number numberToString st PressLogout = onLogout st) as ->.
  { unfold step. by rewrite Huser. }
  assert (step Number numberToString (onLogout st)
            (PressContinue (User.name user) (User.phone user) r36)
          = run (onLogout st) [onLogin user]) as ->.
  { unfold step. cbn [onLogout App.user Login_handle App.users].
    by rewrite Hlogin. }
  unfold App_render. rewrite Huser. by destruct st.
Qed.

Lemma logout_then_login_witness :
  App.user
    (step digitsToNumber integerToString
       (step digitsToNumber integerToString
          (session digitsToNumber integerToString
             [PressContinue "eve" "0799000111" "0.x81kq0p2mz"])
          PressLogout)
       (PressContinue "eve" "0799000111" "0.zzzzzzzzz"))
  = Val (User.mk "USER-x81kq0" "eve" "0799000111").
Proof.
  apply (logout_then_login digitsToNumber integerToString
           [PressContinue "eve" "0799000111" "0.x81kq0p2mz"]
           (User.mk "USER-x81kq0" "eve" "0799000111") "0.zzzzzzzzz").
  reflexivity.
Defined.
